(** * Hierarchical Bayesian Regression wrapper (nispat/hbr.py)

    A shallow embedding of the class [HBR]: its constructor, which
    assembles one of the model variants as a symbolic graph, and its two
    methods [estimate] and [predict].

    The numerical libraries the class drives are outside the file: the
    arrays (numpy) are modelled by their shape and row-major contents over
    the rationals, which stand for the idealised reals (rounding is not
    modelled); the inference engine (pymc3 and theano: the sampler, the
    posterior-predictive sampler, the conversion of a symbolic tensor to
    an array, the global random generator) is a parameter of the
    development, an oracle threaded through an explicit world state. *)

From Stdlib Require Import QArith ZArith Lia.
From stdpp Require Import base option list sorting gmap strings.

Local Open Scope string_scope.
Local Open Scope list_scope.
Local Open Scope nat_scope.

(** ** Python exceptions *)

Inductive exn :=
| ValueError (msg : string)
| AttributeError (attr : string)
| KeyError (key : string)
| AxisError
| EngineError (msg : string).

(** ** numpy arrays: a shape and the row-major contents *)

Record ndarray (A : Type) := NdArray { shape : list nat; data : list A }.
Arguments NdArray {A} shape data.
Arguments shape {A} _.
Arguments data {A} _.

Definition prod_shape (sh : list nat) : nat := foldr Nat.mul 1 sh.

(** [np.asarray] of an N-vector. *)
Definition np_array {A} (l : list A) : ndarray A := NdArray [length l] l.

(** [len(x)]: the extent of the first axis. *)
Definition np_len {A} (x : ndarray A) : nat := hd 0 (shape x).

(** [np.expand_dims(x, axis = 1)]. *)
Definition np_expand_dims_1 {A} (x : ndarray A) : ndarray A :=
  NdArray (take 1 (shape x) ++ 1 :: drop 1 (shape x)) (data x).

(** [np.unique] on integer ids: the sorted distinct values. *)
Fixpoint insert_unique (x : Z) (l : list Z) : list Z :=
  match l with
  | [] => [x]
  | y :: l' =>
      if (x <? y)%Z then x :: l
      else if (x =? y)%Z then l
      else y :: insert_unique x l'
  end.

Definition np_unique (l : list Z) : list Z := foldr insert_unique [] l.

(** *** Reductions: [mean] and [var] (numpy's default, ddof = 0).
    [None] stands for nan, what numpy yields on an empty lane. Sums are
    kept in lowest terms. *)

Definition Qsum (l : list Q) : Q := foldr (fun x acc => Qred (x + acc)) 0%Q l.

Definition np_mean (l : list Q) : option Q :=
  match l with
  | [] => None
  | _ => Some (Qred (Qsum l / inject_Z (Z.of_nat (length l))))
  end.

Definition np_var (l : list Q) : option Q :=
  match np_mean l with
  | None => None
  | Some m => np_mean (map (fun x => (x - m) * (x - m))%Q l)
  end.

(** The entries along axis 0 at inner offset [j]. *)
Definition lane0 (x : ndarray Q) (j : nat) : list Q :=
  match shape x with
  | [] => []
  | d0 :: rest => map (fun i => nth (i * prod_shape rest + j) (data x) 0%Q) (seq 0 d0)
  end.

(** [x.mean(axis=0)] and [x.var(axis=0)]: axis 0 must exist. *)
Definition reduce_axis0 (f : list Q -> option Q) (x : ndarray Q)
  : exn + ndarray (option Q) :=
  match shape x with
  | [] => inl AxisError
  | _ :: rest => inr (NdArray rest (map (fun j => f (lane0 x j)) (seq 0 (prod_shape rest))))
  end.

(** *** Elementwise arithmetic with broadcasting *)

(** Broadcast of two shapes, both given last axis first. *)
Fixpoint broadcast_rev (r1 r2 : list nat) : option (list nat) :=
  match r1, r2 with
  | [], r => Some r
  | r, [] => Some r
  | d1 :: t1, d2 :: t2 =>
      match broadcast_rev t1 t2 with
      | None => None
      | Some t =>
          if d1 =? d2 then Some (d1 :: t)
          else if d1 =? 1 then Some (d2 :: t)
          else if d2 =? 1 then Some (d1 :: t)
          else None
      end
  end.

(** Flat position in an operand of (reversed) shape [rin] of the entry that
    lands at flat position [k] of the result of (reversed) shape [rout]. *)
Fixpoint src_index (rout rin : list nat) (k : nat) : nat :=
  match rout, rin with
  | d :: rout', e :: rin' =>
      (if e =? 1 then 0 else k mod d) + e * src_index rout' rin' (k / d)
  | _, _ => 0
  end.

Definition np_binop (f : Q -> Q -> Q) (x y : ndarray Q) : exn + ndarray Q :=
  let rx := rev (shape x) in
  let ry := rev (shape y) in
  match broadcast_rev rx ry with
  | None => inl (ValueError "operands could not be broadcast together")
  | Some r =>
      inr (NdArray (rev r)
             (map (fun k => f (nth (src_index r rx k) (data x) 0%Q)
                              (nth (src_index r ry k) (data y) 0%Q))
                  (seq 0 (prod_shape r))))
  end.

Definition np_add := np_binop Qplus.
Definition np_mul := np_binop Qmult.

(** A Python float times an array. *)
Definition np_scale (c : Q) (x : ndarray Q) : ndarray Q :=
  NdArray (shape x) (map (Qmult c) (data x)).

(** [temp[i,:] = v] for a row of [m] entries: [v] is broadcast to shape
    [(m,)], leading axes of extent 1 in excess being dropped. *)
Fixpoint strip_ones (sh : list nat) : list nat :=
  match sh with
  | 1 :: (_ :: _) as sh' => strip_ones sh'
  | _ => sh
  end.

Definition np_assign_row (v : ndarray Q) (m : nat) : exn + list Q :=
  match strip_ones (shape v) with
  | [] => inr (repeat (nth 0 (data v) 0%Q) m)
  | [d] =>
      if d =? m then inr (data v)
      else if d =? 1 then inr (repeat (nth 0 (data v) 0%Q) m)
      else inl (ValueError "could not broadcast input array")
  | _ => inl (ValueError "could not broadcast input array")
  end.

(** [x[i]] on a vector and [x[i,:]] on a matrix. *)
Definition np_item (x : ndarray Q) (i : nat) : Q := nth i (data x) 0%Q.

Definition np_row (x : ndarray Q) (i : nat) : ndarray Q :=
  let rest := drop 1 (shape x) in
  NdArray rest (take (prod_shape rest) (drop (i * prod_shape rest) (data x))).

(** ** The symbolic model graph

    The constructor does not compute with numbers: it assembles tensor
    expressions over the shared covariate buffers and the named random
    variables, and hands them to the engine. *)

(** The three shared buffers [self.a], [self.s], [self.g]. *)
Inductive svar := SharedA | SharedS | SharedG.

Inductive expr :=
| Num (q : Q)                                  (* a Python number *)
| Const (v : ndarray Q)                        (* a numpy array captured by value *)
| Shared (v : svar)
| Var (name : string)                          (* a declared random variable *)
| Index (e : expr) (ix : list svar) (slices : nat)   (* e[ix..., :, ...] *)
| Add (e1 e2 : expr)
| Mul (e1 e2 : expr)
| Pow (e : expr) (n : Z)
| Tanh (e : expr)
| BatchedDot (e1 e2 : expr).

Inductive dist :=
| Normal (mu sigma : expr)
| HalfCauchy (beta : expr)
| HalfNormal (sd : expr)
| Uniform (lower upper : expr).

Record rv := RV {
  rv_name : string;
  rv_dist : dist;
  rv_shape : list nat;
  rv_testval : option (ndarray Q)
}.

Record observed_rv := Observed {
  obs_name : string;
  obs_dist : dist;
  obs_data : list Q
}.

(** [pm.Model]: the free random variables in declaration order and the
    observed ones. *)
Record Model := mkModel {
  free_RVs : list rv;
  observed_RVs : list observed_rv
}.

(** The shared buffers an expression reads. *)
Fixpoint shared_vars (e : expr) : list svar :=
  match e with
  | Num _ | Const _ | Var _ => []
  | Shared v => [v]
  | Index e ix _ => shared_vars e ++ ix
  | Add e1 e2 | Mul e1 e2 | BatchedDot e1 e2 => shared_vars e1 ++ shared_vars e2
  | Pow e _ | Tanh e => shared_vars e
  end.

(** A posterior trace: [trace.nchains] and [trace[name]], the draws of
    every chain concatenated along the first axis. *)
Record Trace := mkTrace {
  nchains : nat;
  varvalues : gmap string (ndarray Q)
}.

(** The state of an [HBR] object. [a], [s], [g] hold the current contents
    of the three shared buffers, which the graph in [model] refers to by
    name; [trace] is [None] until [estimate] sets the attribute. *)
Record HBR := mkHBR {
  site_num : nat;
  gender_num : nat;
  model_type : string;
  a : ndarray Q;
  s : list Z;
  g : list Z;
  model : Model;
  trace : option Trace
}.

(** What the object asks of the outside, in order. *)
Inductive call :=
| CallRandn (sh : list nat)
| CallSample (m : Model) (va : ndarray Q) (vs vg : list Z) (draws tune chains : nat)
| CallSamplePPC (m : Model) (va : ndarray Q) (vs vg : list Z) (t : Trace) (samples : nat)
| CallPrint (msg : string).

Definition is_sampling (c : call) : bool :=
  match c with
  | CallSample _ _ _ _ _ _ _ | CallSamplePPC _ _ _ _ _ _ => true
  | _ => false
  end.

(** ** A state and exception monad *)

Definition M (St A : Type) : Type := St -> (exn + A) * St.

Definition ret {St A} (x : A) : M St A := fun st => (inr x, st).

Definition raise {St A} (e : exn) : M St A := fun st => (inl e, st).

Definition bind {St A B} (c : M St A) (k : A -> M St B) : M St B :=
  fun st =>
    match c st with
    | (inl e, st') => (inl e, st')
    | (inr x, st') => k x st'
    end.

Definition modify {St} (f : St -> St) : M St unit := fun st => (inr tt, f st).

(** A pure computation that may raise. *)
Definition lift {St A} (r : exn + A) : M St A := fun st => (r, st).

Notation "x <- c ;; k" := (bind c (fun x => k))
  (at level 100, c at next level, k at level 200, right associativity).
Notation "c ;;; k" := (bind c (fun _ => k))
  (at level 100, k at level 200, right associativity).

(** The statements of a [for] loop over [l], collecting one result each. *)
Fixpoint for_each {St A B} (f : A -> M St B) (l : list A) : M St (list B) :=
  match l with
  | [] => ret []
  | x :: l' => y <- f x ;; ys <- for_each f l' ;; ret (y :: ys)
  end.

(** [d[key]] on a dictionary. *)
Definition getitem {St V} (d : gmap string V) (key : string) : M St V :=
  match d !! key with
  | Some v => ret v
  | None => raise (KeyError key)
  end.

(** ** The inference engine, a parameter

    [E] is the hidden state of the libraries (random generators, compiled
    function caches); every entry point may change it. *)

Record Engine (E : Type) := mkEngine {
  (** [np.random.randn] at the extents [sh]. *)
  randn : list nat -> E -> ndarray Q * E;
  (** [pm.sample(draws, tune=, chains=)] under a model whose graph reads
      the given buffer contents. *)
  pm_sample :
    Model -> ndarray Q -> list Z -> list Z -> nat -> nat -> nat ->
    E -> (exn + Trace) * E;
  (** [pm.sample_posterior_predictive(trace, samples=)], likewise. *)
  pm_sample_posterior_predictive :
    Model -> ndarray Q -> list Z -> list Z -> Trace -> nat ->
    E -> (exn + gmap string (ndarray Q)) * E;
  (** What numpy makes of a symbolic tensor assigned to a row of [m]
      entries. *)
  assign_symbolic : expr -> nat -> exn + list Q
}.
Arguments randn {E} _ _ _.
Arguments pm_sample {E} _ _ _ _ _ _ _ _ _.
Arguments pm_sample_posterior_predictive {E} _ _ _ _ _ _ _ _.
Arguments assign_symbolic {E} _ _ _.

Record world (E : Type) := mkWorld { engine : E; calls : list call }.
Arguments mkWorld {E} _ _.
Arguments engine {E} _.
Arguments calls {E} _.

(** The model under construction inside [with pm.Model() as model]. *)
Record building (E : Type) := mkBuilding { bworld : world E; bmodel : Model }.
Arguments mkBuilding {E} _ _.
Arguments bworld {E} _.
Arguments bmodel {E} _.

(** An object and the outside it acts on. *)
Record state (E : Type) := mkState { self : HBR; outside : world E }.
Arguments mkState {E} _ _.
Arguments self {E} _.
Arguments outside {E} _.

Section Engine.

Context {E : Type} (eng : Engine E).

Definition log (c : call) (w : world E) : world E :=
  mkWorld (engine w) (calls w ++ [c]).

(** *** Construction *)

(** [pm.<Dist>(name, ..., shape=, testval=)] without [observed]. *)
Definition declare (name : string) (d : dist) (sh : list nat)
    (testval : option (ndarray Q)) : M (building E) expr :=
  modify (fun b =>
    mkBuilding (bworld b)
      (mkModel (free_RVs (bmodel b) ++ [RV name d sh testval])
               (observed_RVs (bmodel b)))) ;;;
  ret (Var name).

(** [pm.<Dist>(name, ..., observed=y)]. *)
Definition observe (name : string) (d : dist) (y : list Q) : M (building E) unit :=
  modify (fun b =>
    mkBuilding (bworld b)
      (mkModel (free_RVs (bmodel b))
               (observed_RVs (bmodel b) ++ [Observed name d y]))).

Definition np_random_randn (sh : list nat) : M (building E) (ndarray Q) :=
  fun b =>
    let '(v, e') := randn eng sh (engine (bworld b)) in
    (inr v, mkBuilding (log (CallRandn sh) (mkWorld e' (calls (bworld b)))) (bmodel b)).

Definition np_ones (sh : list nat) : ndarray Q :=
  NdArray sh (repeat 1%Q (prod_shape sh)).

(** The body of the [with] block of [__init__]; [age] is the local
    variable, already expanded for the ['nn'] variant. *)
Definition build_graph (model_type : string) (age : ndarray Q)
    (site_num gender_num : nat) (y : list Q) : M (building E) unit :=
  (* Priors *)
  mu_prior_intercept <- declare "mu_prior_intercept" (Normal (Num 0) (Num 100000)) [] None ;;
  sigma_prior_intercept <- declare "sigma_prior_intercept" (HalfCauchy (Num 5)) [] None ;;
  mu_prior_slope <- declare "mu_prior_slope" (Normal (Num 0) (Num 100000)) [] None ;;
  sigma_prior_slope <- declare "sigma_prior_slope" (HalfCauchy (Num 5)) [] None ;;
  (* Random intercepts *)
  intercepts <- declare "intercepts" (Normal mu_prior_intercept sigma_prior_intercept)
                  [site_num] None ;;
  (* Expected value *)
  likelihood <-
    (if (model_type =? "lin_rand_int")%string then
       slopes <- declare "slopes" (Normal mu_prior_slope sigma_prior_slope)
                   [gender_num] None ;;
       let y_hat := Add (Index intercepts [SharedS] 0)
                        (Mul (Shared SharedA) (Index slopes [SharedG] 0)) in
       sigma_error <- declare "sigma_error" (Uniform (Num 0) (Num 100)) [] None ;;
       let sigma_y := sigma_error in
       ret (y_hat, sigma_y)
     else if (model_type =? "lin_rand_int_slp")%string then
       slopes <- declare "slopes" (Normal mu_prior_slope sigma_prior_slope)
                   [gender_num; site_num] None ;;
       let y_hat := Add (Index intercepts [SharedS] 0)
                        (Mul (Shared SharedA) (Index slopes [SharedG; SharedS] 0)) in
       sigma_error <- declare "sigma_error" (Uniform (Num 0) (Num 100)) [] None ;;
       let sigma_y := sigma_error in
       ret (y_hat, sigma_y)
     else if (model_type =? "lin_rand_int_slp_nse")%string then
       slopes <- declare "slopes" (Normal mu_prior_slope sigma_prior_slope)
                   [gender_num; site_num] None ;;
       let y_hat := Add (Index intercepts [SharedS] 0)
                        (Mul (Shared SharedA) (Index slopes [SharedG; SharedS] 0)) in
       sigma_error <- declare "sigma_error" (Uniform (Num 0) (Num 100))
                        [gender_num; site_num] None ;;
       let sigma_y := Index sigma_error [SharedG; SharedS] 0 in
       ret (y_hat, sigma_y)
     else if (model_type =? "poly2")%string then
       slopes <- declare "slopes" (Normal mu_prior_slope sigma_prior_slope)
                   [gender_num; site_num] None ;;
       mu_prior_slope_2 <- declare "mu_prior_slope_2" (Normal (Num 0) (Num 100000)) [] None ;;
       sigma_prior_slope_2 <- declare "sigma_prior_slope_2" (HalfCauchy (Num 5)) [] None ;;
       slopes_2 <- declare "slopes_2" (Normal mu_prior_slope_2 sigma_prior_slope_2)
                     [gender_num; site_num] None ;;
       let y_hat := Add (Add (Index intercepts [SharedS] 0)
                             (Mul (Shared SharedA) (Index slopes [SharedG; SharedS] 0)))
                        (Mul (Pow (Shared SharedA) 2)
                             (Index slopes_2 [SharedG; SharedS] 0)) in
       sigma_error <- declare "sigma_error" (Uniform (Num 0) (Num 100))
                        [gender_num; site_num] None ;;
       let sigma_y := Index sigma_error [SharedG; SharedS] 0 in
       ret (y_hat, sigma_y)
     else if (model_type =? "nn")%string then
       let n_hidden := 2 in
       let n_data := 1 in
       init_1 <- np_random_randn [n_data; n_hidden] ;;
       init_out <- np_random_randn [n_hidden] ;;
       let std_init_1 := np_ones [n_data; n_hidden] in
       let std_init_out := np_ones [n_hidden] in
       weights_in_1_grp <- declare "w_in_1_grp" (Normal (Num 0) (Num 1))
                             [n_data; n_hidden] (Some init_1) ;;
       (* Group standard-deviation *)
       weights_in_1_grp_sd <- declare "w_in_1_grp_sd" (HalfNormal (Num 1))
                                [n_data; n_hidden] (Some std_init_1) ;;
       (* Group mean distribution from hidden layer to output *)
       weights_1_out_grp <- declare "w_1_out_grp" (Normal (Num 0) (Num 1))
                              [n_hidden] (Some init_out) ;;
       weights_1_out_grp_sd <- declare "w_1_out_grp_sd" (HalfNormal (Num 1))
                                 [n_hidden] (Some std_init_out) ;;
       (* Separate weights for each different model; the distribution's
          own defaults, mu = 0 and sigma = 1 *)
       weights_in_1_raw <- declare "w_in_1" (Normal (Num 0) (Num 1))
                             [gender_num; site_num; n_data; n_hidden] None ;;
       (* Non-centered specification of hierarchical model *)
       let weights_in_1 :=
         Add (Mul (Index weights_in_1_raw [SharedG; SharedS] 2) weights_in_1_grp_sd)
             weights_in_1_grp in
       weights_1_out_raw <- declare "w_1_out" (Normal (Num 0) (Num 1))
                              [gender_num; site_num; n_hidden] None ;;
       let weights_1_out :=
         Add (Mul (Index weights_1_out_raw [SharedG; SharedS] 1) weights_1_out_grp_sd)
             weights_1_out_grp in
       (* Build neural-network using tanh activation function *)
       let act_1 := Tanh (BatchedDot (Const age) weights_in_1) in
       let y_hat := BatchedDot act_1 weights_1_out in
       sigma_error <- declare "sigma_error" (Uniform (Num 0) (Num 100))
                        [gender_num; site_num] None ;;
       let sigma_y := Index sigma_error [SharedG; SharedS] 0 in
       ret (y_hat, sigma_y)
     else
       raise (ValueError (String.append "Unknown method:" model_type))) ;;
  (* Data likelihood *)
  let '(y_hat, sigma_y) := likelihood in
  observe "y_like" (Normal y_hat sigma_y) y.

(** [with pm.Model() as model: body]: the body runs on a fresh model;
    an exception leaves the block without one. *)
Definition with_new_model (body : M (building E) unit) : M (world E) Model :=
  fun w =>
    match body (mkBuilding w (mkModel [] [])) with
    | (inl e, b) => (inl e, bworld b)
    | (inr _, b) => (inr (bmodel b), bworld b)
    end.

(** [HBR.__init__(self, age, site_id, gender, y, model_type = 'lin')];
    [None] for [model_type] is the argument left out. *)
Definition init (age : list Q) (site_id gender : list Z) (y : list Q)
    (model_type_arg : option string) : M (world E) HBR :=
  let model_type := default "lin" model_type_arg in
  let site_num := length (np_unique site_id) in
  let gender_num := length (np_unique gender) in
  let age := if (model_type =? "nn")%string
             then np_expand_dims_1 (np_array age) else np_array age in
  model <- with_new_model (build_graph model_type age site_num gender_num y) ;;
  ret (mkHBR site_num gender_num model_type age site_id gender model None).

(** *** Methods: the object and the outside *)

(** [self.<field>] for an attribute set by the constructor. *)
Definition attr {A} (field : HBR -> A) : M (state E) A :=
  fun st => (inr (field (self st)), st).

(** [self.trace], an attribute only [estimate] creates. *)
Definition attr_trace : M (state E) Trace :=
  fun st =>
    match trace (self st) with
    | Some t => (inr t, st)
    | None => (inl (AttributeError "trace"), st)
    end.

Definition update (f : HBR -> HBR) : M (state E) unit :=
  modify (fun st => mkState (f (self st)) (outside st)).

Definition set_trace (t : Trace) (h : HBR) : HBR :=
  mkHBR (site_num h) (gender_num h) (model_type h) (a h) (s h) (g h) (model h) (Some t).

(** [self.a.set_value(v)] and the like: the buffer is overwritten in
    place, the graph keeps referring to it. *)
Definition set_value_a (v : ndarray Q) (h : HBR) : HBR :=
  mkHBR (site_num h) (gender_num h) (model_type h) v (s h) (g h) (model h) (trace h).

Definition set_value_s (v : list Z) (h : HBR) : HBR :=
  mkHBR (site_num h) (gender_num h) (model_type h) (a h) v (g h) (model h) (trace h).

Definition set_value_g (v : list Z) (h : HBR) : HBR :=
  mkHBR (site_num h) (gender_num h) (model_type h) (a h) (s h) v (model h) (trace h).

Definition sample (m : Model) (draws tune chains : nat) : M (state E) Trace :=
  fun st =>
    let h := self st in
    let w := log (CallSample m (a h) (s h) (g h) draws tune chains) (outside st) in
    let '(r, e') := pm_sample eng m (a h) (s h) (g h) draws tune chains (engine w) in
    (r, mkState h (mkWorld e' (calls w))).

Definition sample_posterior_predictive (m : Model) (t : Trace) (samples : nat)
  : M (state E) (gmap string (ndarray Q)) :=
  fun st =>
    let h := self st in
    let w := log (CallSamplePPC m (a h) (s h) (g h) t samples) (outside st) in
    let '(r, e') := pm_sample_posterior_predictive eng m (a h) (s h) (g h) t samples (engine w) in
    (r, mkState h (mkWorld e' (calls w))).

Definition print (msg : string) : M (state E) unit :=
  modify (fun st => mkState (self st) (log (CallPrint msg) (outside st))).

(** [HBR.estimate(self)] *)
Definition estimate : M (state E) Trace :=
  m <- attr model ;;
  t <- sample m 1000 1000 2 ;;
  update (set_trace t) ;;;
  attr_trace.

(** [self.trace[name]] *)
Definition trace_item (name : string) : M (state E) (ndarray Q) :=
  t <- attr_trace ;;
  getitem (varvalues t) name.

(** The right-hand side of the assignment to [temp[i,:]] and the
    assignment itself, for a row of [ncols] entries; [age] is the local
    variable of [predict]. A tag none of the branches tests leaves the
    row of zeros untouched. *)
Definition group_row (age : ndarray Q) (ncols : nat) (i : nat) : M (state E) (list Q) :=
  mt <- attr model_type ;;
  if ((mt =? "lin_rand_int") || (mt =? "lin_rand_int_slp")
      || (mt =? "lin_rand_int_slp_nse"))%string then
    slope <- trace_item "mu_prior_slope" ;;
    let term1 := np_scale (np_item age i) slope in
    intercept <- trace_item "mu_prior_intercept" ;;
    v <- lift (np_add term1 intercept) ;;
    lift (np_assign_row v ncols)
  else if (mt =? "poly2")%string then
    slope_2 <- trace_item "mu_prior_slope_2" ;;
    let term2 := np_scale (np_item age i ^ 2)%Q slope_2 in
    slope <- trace_item "mu_prior_slope" ;;
    let term1 := np_scale (np_item age i) slope in
    v <- lift (np_add term2 term1) ;;
    intercept <- trace_item "mu_prior_intercept" ;;
    v' <- lift (np_add v intercept) ;;
    lift (np_assign_row v' ncols)
  else if (mt =? "nn")%string then
    w_in <- trace_item "w_in_1_grp" ;;
    x <- lift (np_mul (np_row age i) w_in) ;;
    let act_1 := Tanh (Const x) in
    w_out <- trace_item "w_1_out_grp" ;;
    lift (assign_symbolic eng (BatchedDot act_1 (Const w_out)) ncols)
  else
    ret (repeat 0%Q ncols).

(** The statements of [predict] from [temp = np.zeros(...)] to
    [group_var = temp.var(axis=1)]; the rows of [temp] are kept as a
    list, axis 1 running inside each row. *)
Definition group_stats (age : ndarray Q) (samples : nat)
  : M (state E) (list (option Q) * list (option Q)) :=
  t <- attr_trace ;;
  let ncols := nchains t * samples in
  temp <- for_each (group_row age ncols) (seq 0 (np_len age)) ;;
  let group_mean := map np_mean temp in
  let group_var := map np_var temp in
  ret (group_mean, group_var).

(** [HBR.predict(self, age, site_id, gender)] *)
Definition predict (age : list Q) (site_id gender : list Z)
  : M (state E) (ndarray (option Q) * ndarray (option Q)) :=
  let samples := 1000 in
  mt <- attr model_type ;;
  let age := if (mt =? "nn")%string
             then np_expand_dims_1 (np_array age) else np_array age in
  m <- attr model ;;
  update (set_value_a age) ;;;
  update (set_value_s site_id) ;;;
  update (set_value_g gender) ;;;
  t <- attr_trace ;;
  ppc <- sample_posterior_predictive m t samples ;;
  (* Predicting on training set *)
  y_like <- getitem ppc "y_like" ;;
  pred_mean <- lift (reduce_axis0 np_mean y_like) ;;
  y_like' <- getitem ppc "y_like" ;;
  pred_var <- lift (reduce_axis0 np_var y_like') ;;
  group <- group_stats age samples ;;
  print "Done!" ;;;
  ret (pred_mean, pred_var).

End Engine.

(** ** Reading a model *)

Definition find_rv (name : string) (m : Model) : option rv :=
  find (fun r => (rv_name r =? name)%string) (free_RVs m).

Definition find_observed (name : string) (m : Model) : option observed_rv :=
  find (fun r => (obs_name r =? name)%string) (observed_RVs m).

(** The mean and the scale of the Normal likelihood ['y_like']. *)
Definition likelihood_mean (m : Model) : option expr :=
  match find_observed "y_like" m with
  | Some (Observed _ (Normal mu _) _) => Some mu
  | _ => None
  end.

Definition likelihood_sigma (m : Model) : option expr :=
  match find_observed "y_like" m with
  | Some (Observed _ (Normal _ sigma) _) => Some sigma
  | _ => None
  end.

(** The tags [__init__] has a branch for. *)
Definition implemented_variants : list string :=
  ["lin_rand_int"; "lin_rand_int_slp"; "lin_rand_int_slp_nse"; "poly2"; "nn"].

(** ** What a graph denotes

    The tensor operations are the engine's; an interpretation of them is a
    parameter, and [eval] gives the value of an expression at given buffer
    contents and a given point of the parameter space. *)

Inductive bufval := BufQ (v : ndarray Q) | BufZ (v : list Z).

Record TensorOps (T : Type) := mkTensorOps {
  t_num : Q -> T;
  t_const : ndarray Q -> T;
  t_shared : bufval -> T;
  t_index : T -> list bufval -> nat -> T;
  t_add : T -> T -> T;
  t_mul : T -> T -> T;
  t_pow : T -> Z -> T;
  t_tanh : T -> T;
  t_batched_dot : T -> T -> T
}.
Arguments t_num {T} _ _.
Arguments t_const {T} _ _.
Arguments t_shared {T} _ _.
Arguments t_index {T} _ _ _ _.
Arguments t_add {T} _ _ _.
Arguments t_mul {T} _ _ _.
Arguments t_pow {T} _ _ _.
Arguments t_tanh {T} _ _.
Arguments t_batched_dot {T} _ _ _.

Definition read_buffer (va : ndarray Q) (vs vg : list Z) (v : svar) : bufval :=
  match v with
  | SharedA => BufQ va
  | SharedS => BufZ vs
  | SharedG => BufZ vg
  end.

Fixpoint eval {T} (ops : TensorOps T) (va : ndarray Q) (vs vg : list Z)
    (point : string -> T) (e : expr) : T :=
  match e with
  | Num q => t_num ops q
  | Const v => t_const ops v
  | Shared v => t_shared ops (read_buffer va vs vg v)
  | Var name => point name
  | Index e ix slices =>
      t_index ops (eval ops va vs vg point e) (map (read_buffer va vs vg) ix) slices
  | Add e1 e2 => t_add ops (eval ops va vs vg point e1) (eval ops va vs vg point e2)
  | Mul e1 e2 => t_mul ops (eval ops va vs vg point e1) (eval ops va vs vg point e2)
  | Pow e n => t_pow ops (eval ops va vs vg point e) n
  | Tanh e => t_tanh ops (eval ops va vs vg point e)
  | BatchedDot e1 e2 =>
      t_batched_dot ops (eval ops va vs vg point e1) (eval ops va vs vg point e2)
  end.

(** ** The spec's wording, for comparison with the code *)

(** Spec 4.1, the parameter shapes of the four regression variants at [S]
    sites and [G] genders. *)
Definition spec_shapes (tag : string) (S G : nat) : list (string * list nat) :=
  if (tag =? "lin_rand_int")%string then
    [("intercepts", [S]); ("slopes", [G]); ("sigma_error", [])]
  else if (tag =? "lin_rand_int_slp")%string then
    [("intercepts", [S]); ("slopes", [G; S]); ("sigma_error", [])]
  else if (tag =? "lin_rand_int_slp_nse")%string then
    [("intercepts", [S]); ("slopes", [G; S]); ("sigma_error", [G; S])]
  else if (tag =? "poly2")%string then
    [("intercepts", [S]); ("slopes", [G; S]); ("slopes_2", [G; S]); ("sigma_error", [G; S])]
  else if (tag =? "nn")%string then
    [("intercepts", [S]); ("sigma_error", [G; S])]
  else [].

(** Spec 4.3, the group trend of one subject as worded for the linear
    variants: [age^2 * slope2_mean + age * slope_mean + intercept_mean],
    one entry per draw of the three global hyper-priors; [None] when the
    trace lacks one of them. *)
Definition spec_group_trend (t : Trace) (age_i : Q) : option (list Q) :=
  match varvalues t !! "mu_prior_slope_2",
        varvalues t !! "mu_prior_slope",
        varvalues t !! "mu_prior_intercept" with
  | Some slope2, Some slope, Some intercept =>
      Some (map (fun k => (age_i ^ 2 * nth k (data slope2) 0
                           + age_i * nth k (data slope) 0
                           + nth k (data intercept) 0)%Q)
                (seq 0 (length (data intercept))))
  | _, _, _ => None
  end.

(** What the code computes for the three [lin_] variants and for
    [poly2]. *)
Definition linear_trend (slope intercept : list Q) (age_i : Q) : list Q :=
  zip_with (fun p q => (age_i * p + q)%Q) slope intercept.

Definition quadratic_trend (slope2 slope intercept : list Q) (age_i : Q) : list Q :=
  zip_with (fun u q => (u + q)%Q)
    (zip_with (fun p2 p => (age_i ^ 2 * p2 + age_i * p)%Q) slope2 slope) intercept.

(** ** A deterministic engine to run the definitions on

    It has no hidden state. The sampler answers with ramps of the
    requested extent, one array per free variable of the model; the
    posterior-predictive sampler answers with a [samples] by [len(a)]
    matrix. *)

Fixpoint ramp_from (z : Z) (n : nat) : list Q :=
  match n with
  | 0 => []
  | S n' => inject_Z z :: ramp_from (z + 1) n'
  end.

(** 0, 1, ..., n - 1. *)
Definition ramp (n : nat) : list Q := ramp_from 0 n.

Definition ramp_trace (m : Model) (draws chains : nat) : Trace :=
  mkTrace chains
    (list_to_map
       (map (fun r => (rv_name r,
                       NdArray (chains * draws :: rv_shape r)
                               (ramp (chains * draws * prod_shape (rv_shape r)))))
            (free_RVs m))).

Definition ramp_engine : Engine unit :=
  mkEngine unit
    (fun sh e => (NdArray sh (ramp (prod_shape sh)), e))
    (fun m _ _ _ draws _ chains e => (inr (ramp_trace m draws chains), e))
    (fun _ va _ _ _ samples e =>
       (inr {[ "y_like" := NdArray [samples; np_len va] (ramp (samples * np_len va)) ]}, e))
    (fun _ _ => inl (EngineError "a symbolic tensor is not a number")).

Definition world0 : world unit := mkWorld tt [].

(** An object built and fitted on the deterministic engine. *)
Definition ramp_fitted (tag : string) : state unit :=
  match init ramp_engine [1; 2; 3]%Q [0; 1; 0]%Z [0; 0; 1]%Z [2; 4; 6]%Q (Some tag) world0 with
  | (inr h, w) => snd (estimate ramp_engine (mkState h w))
  | (inl _, w) => mkState (mkHBR 0 0 tag (np_array []) [] [] (mkModel [] []) None) w
  end.

(** The value of a computation that returned, [d] if it raised. *)
Definition returned {A} (r : exn + A) (d : A) : A :=
  match r with
  | inr x => x
  | inl _ => d
  end.

(** ** Vocabulary of the statements *)

(** The local [age] of [predict] after its first statement. *)
Definition predict_age (mt : string) (age : list Q) : ndarray Q :=
  if (mt =? "nn")%string then np_expand_dims_1 (np_array age) else np_array age.

(** The object once the three [set_value] have run. *)
Definition rebound (h : HBR) (age : list Q) (site_id gender : list Z) : HBR :=
  set_value_g gender (set_value_s site_id (set_value_a (predict_age (model_type h) age) h)).

(** The posterior-predictive draws of subject [i] in a [samples] by [n]
    matrix. *)
Definition subject_samples (y_like : ndarray Q) (n i : nat) : list Q :=
  map (fun k => nth (k * n + i) (data y_like) 0%Q) (seq 0 (np_len y_like)).

(** What is asked of the posterior-predictive sampler: when it answers,
    ['y_like'] holds one row per requested sample and one column per row
    of the age buffer. *)
Definition ppc_shape_contract {E} (eng : Engine E) : Prop :=
  ∀ m va vs vg t samples e ppc e' y_like,
    pm_sample_posterior_predictive eng m va vs vg t samples e = (inr ppc, e') →
    ppc !! "y_like" = Some y_like →
    shape y_like = [samples; np_len va].

(** The three variants the first branch of the loop of [predict] tests
    for. *)
Definition lin_variants : list string :=
  ["lin_rand_int"; "lin_rand_int_slp"; "lin_rand_int_slp_nse"].

(** A computation that leaves the state as it found it. *)
Definition pure_st {St A} (c : M St A) : Prop := ∀ st, snd (c st) = st.

(** ** Vocabulary of the further properties *)

(** The random variables an expression mentions. *)
Fixpoint expr_vars (e : expr) : list string :=
  match e with
  | Num _ | Const _ | Shared _ => []
  | Var name => [name]
  | Index e _ _ | Pow e _ | Tanh e => expr_vars e
  | Add e1 e2 | Mul e1 e2 | BatchedDot e1 e2 => expr_vars e1 ++ expr_vars e2
  end.

Definition dist_vars (d : dist) : list string :=
  match d with
  | Normal mu sigma => expr_vars mu ++ expr_vars sigma
  | HalfCauchy beta => expr_vars beta
  | HalfNormal sd => expr_vars sd
  | Uniform lower upper => expr_vars lower ++ expr_vars upper
  end.

Definition mentions (names : list string) (name : string) : bool :=
  existsb (String.eqb name) names.

(** Every variable is declared once, and after the variables its
    distribution mentions. *)
Fixpoint declared_in_order (seen : list string) (rvs : list rv) : bool :=
  match rvs with
  | [] => true
  | r :: rest =>
      forallb (mentions seen) (dist_vars (rv_dist r))
      && negb (mentions seen (rv_name r))
      && declared_in_order (rv_name r :: seen) rest
  end.

(** A model whose expressions mention declared variables only. *)
Definition closed_model (m : Model) : bool :=
  declared_in_order [] (free_RVs m)
  && forallb (fun o => forallb (mentions (map rv_name (free_RVs m)))
                         (dist_vars (obs_dist o)))
       (observed_RVs m).

(** A trace that holds draws for every free variable of a model. *)
Definition trace_covers (t : Trace) (m : Model) : Prop :=
  ∀ r, r ∈ free_RVs m → is_Some (varvalues t !! rv_name r).

(** The deterministic engine, with a posterior-predictive sampler that
    raises. *)
Definition failing_ppc_engine : Engine unit :=
  mkEngine unit
    (randn ramp_engine)
    (pm_sample ramp_engine)
    (fun _ _ _ _ _ _ e => (inl (EngineError "sampling failed"), e))
    (assign_symbolic ramp_engine).

(** An object built on the deterministic engine, before any fit. *)
Definition ramp_built (tag : string) : state unit :=
  match init ramp_engine [1; 2; 3]%Q [0; 1; 0]%Z [0; 0; 1]%Z [2; 4; 6]%Q (Some tag) world0 with
  | (inr h, w) => mkState h w
  | (inl _, w) => mkState (mkHBR 0 0 tag (np_array []) [] [] (mkModel [] []) None) w
  end.

(** The lin_rand_int object of [ramp_built] with a trace of 2 chains of
    500 draws attached. *)
Definition ramp_short_trace : state unit :=
  let st := ramp_built "lin_rand_int" in
  mkState (set_trace (ramp_trace (model (self st)) 500 2) (self st)) (outside st).

(** The deterministic engine, with an MCMC sampler that raises. *)
Definition failing_sample_engine : Engine unit :=
  mkEngine unit
    (randn ramp_engine)
    (fun _ _ _ _ _ _ _ e => (inl (EngineError "sampling failed"), e))
    (pm_sample_posterior_predictive ramp_engine)
    (assign_symbolic ramp_engine).

(** * Properties *)

(** ** [np_unique] counts the distinct values *)

Lemma elem_of_insert_unique x y l :
  y ∈ insert_unique x l ↔ y = x ∨ y ∈ l.
Proof.
  induction l as [|z l IH]; simpl.
  - rewrite list_elem_of_singleton, elem_of_nil. tauto.
  - destruct (Z.ltb_spec x z) as [Hlt|Hge].
    + by rewrite elem_of_cons.
    + destruct (Z.eqb_spec x z) as [->|Hne].
      * rewrite elem_of_cons. tauto.
      * rewrite !elem_of_cons, IH. tauto.
Qed.

Lemma insert_unique_sorted x l :
  StronglySorted Z.lt l → StronglySorted Z.lt (insert_unique x l).
Proof.
  induction 1 as [|z l Hs IH Hz]; simpl.
  - repeat constructor.
  - destruct (Z.ltb_spec x z) as [Hlt|Hge].
    + constructor; [by constructor|].
      constructor; [done|].
      eapply Forall_impl; [exact Hz|]. intros; simpl in *; lia.
    + destruct (Z.eqb_spec x z) as [->|Hne].
      * by constructor.
      * constructor; [done|].
        apply Forall_forall. intros y Hy.
        apply elem_of_insert_unique in Hy as [->|Hy]; [lia|].
        by eapply Forall_forall in Hz.
Qed.

Lemma np_unique_sorted l : StronglySorted Z.lt (np_unique l).
Proof.
  induction l; simpl; [constructor | by apply insert_unique_sorted].
Qed.

Lemma elem_of_np_unique x l : x ∈ np_unique l ↔ x ∈ l.
Proof.
  induction l as [|y l IH]; simpl; [done|].
  rewrite elem_of_insert_unique, IH, elem_of_cons. tauto.
Qed.

Lemma sorted_lt_NoDup l : StronglySorted Z.lt l → NoDup l.
Proof.
  induction 1 as [|z l Hs IH Hz]; constructor; [|done].
  intros Hin. eapply Forall_forall in Hz; [|exact Hin]. lia.
Qed.

Lemma np_unique_length l :
  length (np_unique l) = size (list_to_set l : gset Z).
Proof.
  rewrite <- (size_list_to_set (C := gset Z) (np_unique l))
    by apply sorted_lt_NoDup, np_unique_sorted.
  f_equal. apply set_eq. intros x.
  by rewrite !elem_of_list_to_set, elem_of_np_unique.
Qed.

(** ** Construction *)

Lemma not_implemented_eqb tag :
  tag ∉ implemented_variants →
  (tag =? "lin_rand_int")%string = false ∧
  (tag =? "lin_rand_int_slp")%string = false ∧
  (tag =? "lin_rand_int_slp_nse")%string = false ∧
  (tag =? "poly2")%string = false ∧
  (tag =? "nn")%string = false.
Proof.
  unfold implemented_variants. rewrite !not_elem_of_cons.
  intros (H1 & H2 & H3 & H4 & H5 & _).
  repeat split; by apply String.eqb_neq.
Qed.

(** The tags outside the enumeration all take the last branch, before
    which the engine has only been asked to declare the common priors. *)
Lemma build_graph_unknown {E} (eng : Engine E) tag age S G y b :
  tag ∉ implemented_variants →
  fst (build_graph eng tag age S G y b)
  = inl (ValueError (String.append "Unknown method:" tag))
  ∧ bworld (snd (build_graph eng tag age S G y b)) = bworld b.
Proof.
  intros (H1 & H2 & H3 & H4 & H5)%not_implemented_eqb.
  unfold build_graph, bind, declare, modify, ret, raise. simpl.
  by rewrite H1, H2, H3, H4, H5.
Qed.

(** C1. Construction with a variant tag outside the implemented
    enumeration (lin_rand_int, lin_rand_int_slp, lin_rand_int_slp_nse,
    poly2, nn), the tag 'lin' included, raises the unknown-model
    [ValueError]; it does so without the engine having been called: the
    world comes back as it was, its log of calls holds no sampling that
    was not there before. *)
Theorem init_unknown_variant {E} (eng : Engine E)
    (age : list Q) (site_id gender : list Z) (y : list Q) (tag : string) (w : world E) :
  tag ∉ implemented_variants →
  init eng age site_id gender y (Some tag) w
  = (inl (ValueError (String.append "Unknown method:" tag)), w)
  ∧ filter is_sampling (calls (snd (init eng age site_id gender y (Some tag) w)))
    = filter is_sampling (calls w).
Proof.
  intros Htag.
  assert (Hinit : init eng age site_id gender y (Some tag) w
                  = (inl (ValueError (String.append "Unknown method:" tag)), w)).
  { unfold init, bind, with_new_model. simpl.
    match goal with |- context [build_graph eng tag ?ag ?S ?G y ?b] =>
      destruct (build_graph_unknown eng tag ag S G y b Htag) as [Hr Hw];
      destruct (build_graph eng tag ag S G y b) as [r b'] end.
    simpl in Hr, Hw. subst r. by rewrite Hw. }
  by rewrite Hinit.
Qed.

Lemma init_unknown_variant_lin :
  ("lin" ∉ implemented_variants)
  ∧ init ramp_engine [1; 2; 3]%Q [0; 1; 0]%Z [0; 0; 1]%Z [2; 4; 6]%Q (Some "lin") world0
    = (inl (ValueError "Unknown method:lin"), world0).
Proof.
  assert (H : "lin" ∉ implemented_variants).
  { unfold implemented_variants. rewrite !not_elem_of_cons, elem_of_nil.
    repeat split; (discriminate || tauto). }
  split; [exact H|].
  exact (proj1 (init_unknown_variant ramp_engine [1; 2; 3]%Q [0; 1; 0]%Z [0; 0; 1]%Z
                  [2; 4; 6]%Q "lin" world0 H)).
Defined.

(** C9. The [model_type] parameter defaults to 'lin', which no branch
    implements: construction without a variant tag raises the
    unknown-model [ValueError], whatever the training arrays. *)
Theorem init_default_raises {E} (eng : Engine E)
    (age : list Q) (site_id gender : list Z) (y : list Q) (w : world E) :
  init eng age site_id gender y None w
  = (inl (ValueError "Unknown method:lin"), w).
Proof. reflexivity. Qed.

Ltac run_init :=
  unfold init, with_new_model, build_graph, np_random_randn, declare, observe,
    bind, modify, ret, raise, log; simpl.

(** C2. For each of the five implemented tags construction succeeds, with
    [S] and [G] the numbers of distinct site and gender ids of the
    training arrays, and declares the parameters of the table of 4.1:
    intercepts of shape S; slopes of shape (G,) for lin_rand_int and (G,S)
    for the other regression variants; slopes_2 of shape (G,S) for poly2,
    whose mean has the quadratic age term; a noise scale Uniform(0,100),
    scalar for lin_rand_int and lin_rand_int_slp and of shape (G,S)
    otherwise. *)
Theorem init_declares_shapes {E} (eng : Engine E)
    (age : list Q) (site_id gender : list Z) (y : list Q) (tag : string) (w : world E) :
  tag ∈ implemented_variants →
  let S := size (list_to_set site_id : gset Z) in
  let G := size (list_to_set gender : gset Z) in
  ∃ h w',
    init eng age site_id gender y (Some tag) w = (inr h, w')
    ∧ site_num h = S ∧ gender_num h = G ∧ model_type h = tag ∧ trace h = None
    ∧ (∀ name sh, (name, sh) ∈ spec_shapes tag S G →
         rv_shape <$> find_rv name (model h) = Some sh)
    ∧ rv_dist <$> find_rv "sigma_error" (model h) = Some (Uniform (Num 0) (Num 100))
    ∧ (tag = "poly2" →
         likelihood_mean (model h)
         = Some (Add (Add (Index (Var "intercepts") [SharedS] 0)
                          (Mul (Shared SharedA) (Index (Var "slopes") [SharedG; SharedS] 0)))
                     (Mul (Pow (Shared SharedA) 2)
                          (Index (Var "slopes_2") [SharedG; SharedS] 0)))).
Proof.
  intros Htag S G. subst S G. rewrite <- !np_unique_length.
  unfold implemented_variants in Htag.
  rewrite !elem_of_cons, elem_of_nil in Htag.
  destruct Htag as [->|[->|[->|[->|[->|[]]]]]].
  1-4: match goal with |- context [init ?e ?ag ?si ?ge ?yy ?tg ?ww] =>
         destruct (init e ag si ge yy tg ww) as [r w'] eqn:Hinit end;
       revert Hinit; run_init; intros [= <- <-];
       eexists _, _; (split; [reflexivity|]);
       split_and!; try reflexivity; try discriminate;
       intros name sh; unfold spec_shapes; simpl;
       rewrite ?elem_of_cons, elem_of_nil;
       intros Hin; repeat destruct Hin as [Hin|Hin]; try done;
       injection Hin as -> ->; reflexivity.
  match goal with |- context [init ?e ?ag ?si ?ge ?yy ?tg ?ww] =>
    destruct (init e ag si ge yy tg ww) as [r w'] eqn:Hinit end.
  revert Hinit. run_init.
  destruct (randn eng [1; 2] (engine w)) as [init_1 e1]. simpl.
  destruct (randn eng [2] e1) as [init_out e2]. simpl.
  intros [= <- <-].
  eexists _, _; (split; [reflexivity|]).
  split_and!; try reflexivity; try discriminate.
  intros name sh; unfold spec_shapes; simpl.
  rewrite ?elem_of_cons, elem_of_nil.
  intros Hin; repeat destruct Hin as [Hin|Hin]; try done;
    injection Hin as -> ->; reflexivity.
Qed.

Lemma init_declares_shapes_poly2 :
  ("poly2" ∈ implemented_variants)
  ∧ ∃ h w',
      init ramp_engine [1; 2; 3]%Q [0; 1; 0]%Z [0; 0; 1]%Z [2; 4; 6]%Q (Some "poly2") world0
      = (inr h, w')
      ∧ site_num h = 2 ∧ gender_num h = 2
      ∧ rv_shape <$> find_rv "slopes_2" (model h) = Some [2; 2].
Proof.
  assert (H : "poly2" ∈ implemented_variants).
  { unfold implemented_variants. rewrite !elem_of_cons.
    repeat (first [left; reflexivity | right]). }
  split; [exact H|].
  destruct (init_declares_shapes ramp_engine [1; 2; 3]%Q [0; 1; 0]%Z [0; 0; 1]%Z
              [2; 4; 6]%Q "poly2" world0 H)
    as (h & w' & Hinit & HS & HG & _ & _ & Hshapes & _).
  exists h, w'. split; [exact Hinit|].
  split; [rewrite HS; vm_compute; reflexivity|].
  split; [rewrite HG; vm_compute; reflexivity|].
  apply Hshapes. vm_compute.
  do 2 apply list_elem_of_further. apply list_elem_of_here.
Defined.

Lemma init_trace_none {E} (eng : Engine E) age site_id gender y tag w h w' :
  init eng age site_id gender y tag w = (inr h, w') → trace h = None.
Proof.
  unfold init, bind, ret.
  destruct (with_new_model _ w) as [[e|m] w1]; intros [= <- _]; reflexivity.
Qed.

(** ** Computations that leave the state alone *)

Create HintDb pure_st.

Lemma pure_ret {St A} (x : A) : pure_st (ret (St := St) x).
Proof. by intros st. Qed.

Lemma pure_raise {St A} (e : exn) : pure_st (raise (St := St) (A := A) e).
Proof. by intros st. Qed.

Lemma pure_lift {St A} (r : exn + A) : pure_st (lift (St := St) r).
Proof. by intros st. Qed.

Lemma pure_bind {St A B} (c : M St A) (k : A → M St B) :
  pure_st c → (∀ x, pure_st (k x)) → pure_st (bind c k).
Proof.
  intros Hc Hk st. unfold bind. specialize (Hc st).
  destruct (c st) as [[e|x] st1]; simpl in Hc; subst st1; [done|apply Hk].
Qed.

Lemma pure_getitem {St V} (d : gmap string V) key : pure_st (getitem (St := St) d key).
Proof. unfold getitem. destruct (d !! key); [apply pure_ret | apply pure_raise]. Qed.

Lemma pure_for_each {St A B} (f : A → M St B) l :
  (∀ x, pure_st (f x)) → pure_st (for_each f l).
Proof.
  intros Hf. induction l as [|x l IH]; simpl; [apply pure_ret|].
  apply pure_bind; [apply Hf|]. intros y.
  apply pure_bind; [apply IH|]. intros ys. apply pure_ret.
Qed.

Lemma pure_attr {E A} (field : HBR → A) : pure_st (attr (E := E) field).
Proof. by intros st. Qed.

Lemma pure_attr_trace {E} : pure_st (attr_trace (E := E)).
Proof. intros st. unfold attr_trace. by destruct (trace (self st)). Qed.

Lemma pure_trace_item {E} name : pure_st (trace_item (E := E) name).
Proof.
  apply pure_bind; [apply pure_attr_trace|]. intros t. apply pure_getitem.
Qed.

#[local] Hint Resolve pure_ret pure_raise pure_lift pure_getitem pure_attr
  pure_attr_trace pure_trace_item : pure_st.

Ltac pure_steps :=
  repeat first
    [ apply pure_bind; [solve [auto with pure_st] | intros ?]
    | solve [auto with pure_st] ].

Lemma pure_group_row {E} (eng : Engine E) age ncols i :
  pure_st (group_row eng age ncols i).
Proof.
  unfold group_row. apply pure_bind; [apply pure_attr|]. intros mt.
  repeat match goal with |- pure_st (if ?b then _ else _) => destruct b end;
    pure_steps.
Qed.

Lemma pure_group_stats {E} (eng : Engine E) age samples :
  pure_st (group_stats eng age samples).
Proof.
  unfold group_stats. apply pure_bind; [apply pure_attr_trace|]. intros t.
  apply pure_bind; [apply pure_for_each; intros i; apply pure_group_row|].
  intros temp. apply pure_ret.
Qed.

(** ** [estimate] *)

(** [estimate] touches the object only to set the trace. *)
Lemma estimate_frame {E} (eng : Engine E) (st : state E) :
  self (snd (estimate eng st)) = self st
  ∨ ∃ t, self (snd (estimate eng st)) = set_trace t (self st).
Proof.
  destruct st as [h w].
  unfold estimate, bind, attr, sample, update, modify, attr_trace, log. simpl.
  destruct (pm_sample eng (model h) (a h) (s h) (g h) 1000 1000 2 (engine w))
    as [[err|t] e']; simpl; eauto.
Qed.

(** C3. [estimate] asks the sampler once, on the stored graph, for 1000
    draws after 1000 tuning iterations on 2 chains; the trace that comes
    back is stored on the object, whatever trace was stored before, and is
    also the value returned. When the sampler raises, so does
    [estimate], and the object is as it was. *)
Theorem estimate_samples_stores_returns {E} (eng : Engine E) (st : state E) :
  let h := self st in
  let w := outside st in
  let asked := CallSample (model h) (a h) (s h) (g h) 1000 1000 2 in
  calls (outside (snd (estimate eng st))) = calls w ++ [asked]
  ∧ match pm_sample eng (model h) (a h) (s h) (g h) 1000 1000 2 (engine w) with
    | (inr t, e') =>
        fst (estimate eng st) = inr t
        ∧ trace (self (snd (estimate eng st))) = Some t
        ∧ self (snd (estimate eng st)) = set_trace t h
        ∧ engine (outside (snd (estimate eng st))) = e'
    | (inl err, e') =>
        fst (estimate eng st) = inl err
        ∧ self (snd (estimate eng st)) = h
        ∧ engine (outside (snd (estimate eng st))) = e'
    end.
Proof.
  destruct st as [h w]. simpl.
  unfold estimate, bind, attr, sample, update, modify, attr_trace, log. simpl.
  destruct (pm_sample eng (model h) (a h) (s h) (g h) 1000 1000 2 (engine w))
    as [[err|t] e']; simpl; auto.
Qed.

(** ** [predict] *)

(** Every way through [predict]. *)
Lemma predict_cases {E} (eng : Engine E) age site_id gender (st : state E) :
  let h := self st in
  let w := outside st in
  let age' := predict_age (model_type h) age in
  let h1 := rebound h age site_id gender in
  match trace h with
  | None =>
      predict eng age site_id gender st = (inl (AttributeError "trace"), mkState h1 w)
  | Some t =>
      let asked := CallSamplePPC (model h) age' site_id gender t 1000 in
      match pm_sample_posterior_predictive eng (model h) age' site_id gender t 1000
              (engine w) with
      | (inl err, e') =>
          predict eng age site_id gender st
          = (inl err, mkState h1 (mkWorld e' (calls w ++ [asked])))
      | (inr ppc, e') =>
          let st2 := mkState h1 (mkWorld e' (calls w ++ [asked])) in
          match ppc !! "y_like" with
          | None => predict eng age site_id gender st = (inl (KeyError "y_like"), st2)
          | Some y_like =>
              match reduce_axis0 np_mean y_like, reduce_axis0 np_var y_like with
              | inl err, _ => predict eng age site_id gender st = (inl err, st2)
              | inr _, inl err => predict eng age site_id gender st = (inl err, st2)
              | inr pred_mean, inr pred_var =>
                  match fst (group_stats eng age' 1000 st2) with
                  | inl err => predict eng age site_id gender st = (inl err, st2)
                  | inr _ =>
                      predict eng age site_id gender st
                      = (inr (pred_mean, pred_var),
                         mkState h1 (mkWorld e' ((calls w ++ [asked]) ++ [CallPrint "Done!"])))
                  end
              end
          end
      end
  end.
Proof.
  destruct st as [h w]. simpl.
  unfold predict, bind, attr, update, modify, attr_trace, sample_posterior_predictive,
    print, log, rebound, predict_age; simpl.
  destruct (trace h) as [t|] eqn:Ht; [|reflexivity]. simpl.
  destruct (pm_sample_posterior_predictive eng (model h) _ site_id gender t 1000 (engine w))
    as [[err|ppc] e']; [reflexivity|]. simpl.
  unfold getitem.
  destruct (ppc !! "y_like") as [y_like|]; [|reflexivity].
  unfold ret, lift. simpl.
  destruct (reduce_axis0 np_mean y_like) as [err|pred_mean] eqn:Hm; [reflexivity|].
  destruct (reduce_axis0 np_var y_like) as [err|pred_var] eqn:Hv; [reflexivity|].
  match goal with |- context [group_stats eng ?ag 1000 ?st2] =>
    pose proof (pure_group_stats eng ag 1000 st2) as Hpure;
    destruct (group_stats eng ag 1000 st2) as [[err|grp] st3] end.
  - simpl in *. by subst st3.
  - simpl in *. by subst st3.
Qed.

Ltac predict_by_cases eng age site_id gender st :=
  let H := fresh "Hcases" in
  pose proof (predict_cases eng age site_id gender st) as H; simpl in H;
  repeat match type of H with
         | match ?x with _ => _ end => destruct x eqn:?
         end.

Lemma predict_self {E} (eng : Engine E) age site_id gender (st : state E) :
  self (snd (predict eng age site_id gender st)) = rebound (self st) age site_id gender.
Proof.
  predict_by_cases eng age site_id gender st; by rewrite Hcases.
Qed.

(** C7. Whatever its outcome, a call to [predict] leaves the three shared
    buffers holding the supplied age (as a column for the 'nn' variant),
    site ids and gender ids, so that a second call overwrites what the
    first one set; the graph, the stored trace, S, G and the variant tag
    are as before the call. *)
Theorem predict_rebinds_buffers_only {E} (eng : Engine E)
    (age : list Q) (site_id gender : list Z) (st : state E) :
  let h := self st in
  let h' := self (snd (predict eng age site_id gender st)) in
  (a h' = predict_age (model_type h) age ∧ data (a h') = age
   ∧ s h' = site_id ∧ g h' = gender)
  ∧ (model h' = model h ∧ trace h' = trace h ∧ site_num h' = site_num h
     ∧ gender_num h' = gender_num h ∧ model_type h' = model_type h)
  ∧ (∀ age2 site_id2 gender2,
       let h'' := self (snd (predict eng age2 site_id2 gender2
                               (snd (predict eng age site_id gender st)))) in
       a h'' = predict_age (model_type h) age2 ∧ s h'' = site_id2 ∧ g h'' = gender2).
Proof.
  simpl. rewrite predict_self.
  split; [|split].
  - unfold rebound, predict_age; simpl.
    repeat split. by destruct (model_type (self st) =? "nn")%string.
  - by unfold rebound.
  - intros age2 site_id2 gender2. rewrite !predict_self. by unfold rebound.
Qed.

(** C10. The fields [site_num], [gender_num] and [model_type] set by the
    constructor are the same after [estimate] and after [predict],
    whatever covariates [predict] is given. *)
Theorem methods_preserve_construction_fields {E} (eng : Engine E)
    (age : list Q) (site_id gender : list Z) (st : state E) :
  let h := self st in
  let he := self (snd (estimate eng st)) in
  let hp := self (snd (predict eng age site_id gender st)) in
  (site_num he = site_num h ∧ gender_num he = gender_num h
   ∧ model_type he = model_type h)
  ∧ (site_num hp = site_num h ∧ gender_num hp = gender_num h
     ∧ model_type hp = model_type h).
Proof.
  simpl. split.
  - pose proof (estimate_frame eng st) as Hf.
    destruct Hf as [-> | [t ->]]; by unfold set_trace.
  - rewrite predict_self. by unfold rebound.
Qed.

(** C8. On an object that has no trace attached, which is how the
    constructor leaves it and how it stays until [estimate] has run,
    [predict] raises (the attribute [trace] is missing) and returns
    nothing; the posterior-predictive sampler is not reached. *)
Theorem predict_before_estimate_raises {E} (eng : Engine E)
    (age : list Q) (site_id gender : list Z) (st : state E) :
  trace (self st) = None →
  fst (predict eng age site_id gender st) = inl (AttributeError "trace")
  ∧ trace (self (snd (predict eng age site_id gender st))) = None
  ∧ outside (snd (predict eng age site_id gender st)) = outside st.
Proof.
  intros Hnone.
  pose proof (predict_cases eng age site_id gender st) as Hcases.
  simpl in Hcases. rewrite Hnone in Hcases. rewrite Hcases. simpl.
  repeat split. by unfold rebound.
Qed.

Lemma predict_before_estimate_raises_fresh :
  ∃ h w,
    init ramp_engine [1; 2; 3]%Q [0; 1; 0]%Z [0; 0; 1]%Z [2; 4; 6]%Q
      (Some "lin_rand_int") world0 = (inr h, w)
    ∧ trace (self (mkState h w)) = None
    ∧ fst (predict ramp_engine [4; 5]%Q [0; 1]%Z [1; 0]%Z (mkState h w))
      = inl (AttributeError "trace").
Proof.
  eexists _, _. split; [reflexivity|].
  split; [reflexivity|].
  refine (proj1 (predict_before_estimate_raises ramp_engine [4; 5]%Q [0; 1]%Z [1; 0]%Z
                   (mkState _ _) _)).
  reflexivity.
Defined.

Lemma np_len_predict_age mt (age : list Q) : np_len (predict_age mt age) = length age.
Proof. unfold predict_age. by destruct (mt =? "nn")%string. Qed.

Lemma reduce_axis0_matrix f (x : ndarray Q) r n :
  shape x = [r; n] →
  reduce_axis0 f x
  = inr (NdArray [n] (map (fun i => f (subject_samples x n i)) (seq 0 n))).
Proof.
  intros Hs. unfold reduce_axis0, subject_samples, lane0, np_len. rewrite Hs. simpl.
  by rewrite Nat.mul_1_r.
Qed.

Lemma ramp_engine_ppc_shape : ppc_shape_contract ramp_engine.
Proof.
  intros m va vs vg t samples e ppc e' y_like Hcall Hget. simpl in Hcall.
  injection Hcall as <- _.
  apply lookup_singleton_Some in Hget as [_ <-]. reflexivity.
Qed.

(** C5. When [predict] returns, it returns exactly the pair [pred_mean],
    [pred_var]: entry [i] of each is the mean, respectively the variance,
    of the posterior-predictive draws of ['y_like'] for subject [i], and,
    the sampler keeping to its shape contract, both have as many entries
    as covariates were supplied. The group statistics have been computed
    by then, and are not part of the result. *)
Theorem predict_returns_mean_var {E} (eng : Engine E)
    (age : list Q) (site_id gender : list Z) (st st' : state E)
    (pred_mean pred_var : ndarray (option Q)) :
  ppc_shape_contract eng →
  predict eng age site_id gender st = (inr (pred_mean, pred_var), st') →
  let h := self st in
  let n := length age in
  let age' := predict_age (model_type h) age in
  ∃ t ppc e' y_like group_mean group_var,
    trace h = Some t
    ∧ pm_sample_posterior_predictive eng (model h) age' site_id gender t 1000
        (engine (outside st)) = (inr ppc, e')
    ∧ ppc !! "y_like" = Some y_like
    ∧ shape pred_mean = [n] ∧ length (data pred_mean) = n
    ∧ shape pred_var = [n] ∧ length (data pred_var) = n
    ∧ (∀ i, i < n →
         data pred_mean !! i = Some (np_mean (subject_samples y_like n i))
         ∧ data pred_var !! i = Some (np_var (subject_samples y_like n i)))
    ∧ length (subject_samples y_like n 0) = 1000
    ∧ fst (group_stats eng age' 1000
             (mkState (rebound h age site_id gender)
                (mkWorld e' (calls (outside st)
                             ++ [CallSamplePPC (model h) age' site_id gender t 1000]))))
      = inr (group_mean, group_var).
Proof.
  intros Hcontract Hret. simpl.
  pose proof (predict_cases eng age site_id gender st) as Hcases. simpl in Hcases.
  destruct (trace (self st)) as [t|]; [|congruence].
  destruct (pm_sample_posterior_predictive eng (model (self st)) _ site_id gender t 1000
              (engine (outside st))) as [[err|ppc] e'] eqn:Hcall; [congruence|].
  destruct (ppc !! "y_like") as [y_like|] eqn:Hget; [|congruence].
  pose proof (Hcontract _ _ _ _ _ _ _ _ _ _ Hcall Hget) as Hshape.
  rewrite np_len_predict_age in Hshape.
  rewrite !(reduce_axis0_matrix _ _ _ _ Hshape) in Hcases.
  match type of Hcases with
  | match fst ?c with _ => _ end => destruct (fst c) as [err|[gm gv]] eqn:Hgroup
  end; [congruence|].
  rewrite Hret in Hcases. injection Hcases as -> -> _.
  exists t, ppc, e', y_like, gm, gv. simpl.
  rewrite !length_map, !length_seq.
  split_and!; try done.
  - intros i Hi.
    split; rewrite list_lookup_fmap, lookup_seq_lt by done; reflexivity.
  - unfold subject_samples, np_len. rewrite length_map, length_seq, Hshape.
    reflexivity.
Qed.

Lemma predict_returns_mean_var_ramp :
  ppc_shape_contract ramp_engine
  ∧ ∃ pred_mean pred_var st',
      predict ramp_engine [5; 7]%Q [0; 1]%Z [1; 0]%Z (ramp_fitted "lin_rand_int")
      = (inr (pred_mean, pred_var), st')
      ∧ length (data pred_mean) = 2 ∧ length (data pred_var) = 2.
Proof.
  split; [exact ramp_engine_ppc_shape|].
  set (r := predict ramp_engine [5; 7]%Q [0; 1]%Z [1; 0]%Z (ramp_fitted "lin_rand_int")).
  set (res := returned (fst r) (NdArray [] [], NdArray [] [])).
  assert (Hr : r = (inr (fst res, snd res), snd r)) by (vm_compute; reflexivity).
  destruct (predict_returns_mean_var ramp_engine [5; 7]%Q [0; 1]%Z [1; 0]%Z
              (ramp_fitted "lin_rand_int") (snd r) (fst res) (snd res)
              ramp_engine_ppc_shape Hr)
    as (t & ppc & e' & y_like & gm & gv & _ & _ & _ & _ & Hlm & _ & Hlv & _).
  exists (fst res), (snd res), (snd r). split; [exact Hr|]. split; [exact Hlm | exact Hlv].
Defined.

(** ** The group trend *)

Lemma np_scale_array c (l : list Q) :
  np_scale c (np_array l) = np_array (map (Qmult c) l).
Proof. unfold np_scale, np_array. simpl. by rewrite length_map. Qed.

Lemma src_index_vec n k : k < n → src_index [n] [n] k = k.
Proof.
  intros Hk. simpl. destruct (Nat.eqb_spec n 1) as [->|Hn].
  - lia.
  - rewrite Nat.mod_small by done. lia.
Qed.

Lemma broadcast_rev_vec n : broadcast_rev [n] [n] = Some [n].
Proof. simpl. by rewrite Nat.eqb_refl. Qed.

Lemma np_binop_vec f (l1 l2 : list Q) :
  length l1 = length l2 →
  np_binop f (np_array l1) (np_array l2) = inr (np_array (zip_with f l1 l2)).
Proof.
  intros Hlen. unfold np_binop, np_array. cbn [shape data].
  change (rev [length l1]) with [length l1].
  change (rev [length l2]) with [length l2].
  rewrite <- Hlen, broadcast_rev_vec.
  change (rev [length l1]) with [length l1].
  change (prod_shape [length l1]) with (length l1 * 1).
  rewrite length_zip_with, <- Hlen, Nat.min_id, Nat.mul_1_r.
  do 2 f_equal. apply list_eq. intros k.
  rewrite list_lookup_fmap, lookup_zip_with.
  destruct (decide (k < length l1)) as [Hk|Hk].
  - rewrite lookup_seq_lt by done. cbn [fmap option_fmap option_map plus].
    rewrite src_index_vec by done.
    destruct (lookup_lt_is_Some_2 l1 k Hk) as [x Hx].
    destruct (lookup_lt_is_Some_2 l2 k ltac:(lia)) as [y Hy].
    rewrite Hx, Hy. simpl.
    by rewrite (nth_lookup_Some _ _ _ _ Hx), (nth_lookup_Some _ _ _ _ Hy).
  - rewrite lookup_seq_ge by lia. simpl.
    by rewrite (lookup_ge_None_2 l1 k) by lia.
Qed.

Lemma strip_ones_vec n : strip_ones [n] = [n].
Proof. by destruct n as [|[|n]]. Qed.

Lemma np_assign_row_vec (l : list Q) m :
  length l = m → np_assign_row (np_array l) m = inr l.
Proof.
  intros <-. unfold np_assign_row, np_array. cbn [shape data].
  by rewrite strip_ones_vec, Nat.eqb_refl.
Qed.

Lemma map_nth_seq {A B} (f : A → B) (l : list A) d :
  map (fun i => f (nth i l d)) (seq 0 (length l)) = map f l.
Proof.
  apply list_eq. intros k. rewrite !list_lookup_fmap.
  destruct (l !! k) as [x|] eqn:Hx.
  - rewrite lookup_seq_lt by (by eapply lookup_lt_Some). simpl.
    by rewrite (nth_lookup_Some _ _ _ _ Hx).
  - rewrite lookup_seq_ge by (by apply lookup_ge_None). done.
Qed.

Lemma for_each_pure_ok {St A B} (f : A → M St B) (F : A → B) l st :
  (∀ x, x ∈ l → f x st = (inr (F x), st)) →
  for_each f l st = (inr (map F l), st).
Proof.
  induction l as [|x l IH]; intros Hf; simpl; [done|].
  unfold bind. rewrite Hf by apply list_elem_of_here.
  rewrite IH; [done|]. intros z Hz. apply Hf. by apply list_elem_of_further.
Qed.

Lemma trace_item_ok {E} (st : state E) t name v :
  trace (self st) = Some t → varvalues t !! name = Some v →
  trace_item name st = (inr v, st).
Proof.
  intros Ht Hv. unfold trace_item, bind, attr_trace, getitem. rewrite Ht, Hv. done.
Qed.

Lemma lin_variants_test mt :
  mt ∈ lin_variants →
  ((mt =? "lin_rand_int") || (mt =? "lin_rand_int_slp")
   || (mt =? "lin_rand_int_slp_nse"))%string = true.
Proof.
  unfold lin_variants. rewrite !elem_of_cons, elem_of_nil.
  intros [->|[->|[->|[]]]]; reflexivity.
Qed.

Lemma group_row_lin {E} (eng : Engine E) (st : state E) t age ncols i slope intercept :
  model_type (self st) ∈ lin_variants →
  trace (self st) = Some t →
  varvalues t !! "mu_prior_slope" = Some (np_array slope) →
  varvalues t !! "mu_prior_intercept" = Some (np_array intercept) →
  length slope = ncols → length intercept = ncols →
  group_row eng (np_array age) ncols i st
  = (inr (linear_trend slope intercept (nth i age 0%Q)), st).
Proof.
  intros Hmt Ht Hs Hi Hls Hli.
  unfold group_row, bind, attr.
  rewrite (lin_variants_test _ Hmt).
  rewrite (trace_item_ok st t _ _ Ht Hs), (trace_item_ok st t _ _ Ht Hi).
  unfold lift, np_add. rewrite np_scale_array.
  rewrite np_binop_vec by (rewrite length_map; congruence).
  rewrite np_assign_row_vec
    by (rewrite length_zip_with, length_map, Hls, Hli; apply Nat.min_id).
  unfold linear_trend, np_item. cbn [np_array data].
  by rewrite zip_with_fmap_l.
Qed.

Lemma group_row_poly2 {E} (eng : Engine E) (st : state E) t age ncols i
    slope2 slope intercept :
  model_type (self st) = "poly2" →
  trace (self st) = Some t →
  varvalues t !! "mu_prior_slope_2" = Some (np_array slope2) →
  varvalues t !! "mu_prior_slope" = Some (np_array slope) →
  varvalues t !! "mu_prior_intercept" = Some (np_array intercept) →
  length slope2 = ncols → length slope = ncols → length intercept = ncols →
  group_row eng (np_array age) ncols i st
  = (inr (quadratic_trend slope2 slope intercept (nth i age 0%Q)), st).
Proof.
  intros Hmt Ht Hs2 Hs Hi Hls2 Hls Hli.
  unfold group_row, bind, attr. rewrite Hmt. cbn [String.eqb Ascii.eqb Bool.eqb orb].
  rewrite (trace_item_ok st t _ _ Ht Hs2), (trace_item_ok st t _ _ Ht Hs).
  unfold lift, np_add. rewrite !np_scale_array.
  rewrite np_binop_vec by (rewrite !length_map; congruence).
  rewrite (trace_item_ok st t _ _ Ht Hi).
  rewrite np_binop_vec
    by (rewrite length_zip_with, !length_map, Hls2, Hls, Hli; apply Nat.min_id).
  rewrite np_assign_row_vec
    by (rewrite !length_zip_with, !length_map, Hls2, Hls, Hli, !Nat.min_id; done).
  unfold quadratic_trend, np_item. cbn [np_array data].
  by rewrite zip_with_fmap_l, zip_with_fmap_r.
Qed.

(** C6, amended. In [predict], on an object whose trace holds the draws of
    the global hyper-priors (one entry per chain and retained draw), row
    [i] of the group trend is, draw by draw,
    [age[i] * slope_mean + intercept_mean] for the three lin_ variants, and
    [age[i]^2 * slope2_mean + age[i] * slope_mean + intercept_mean] for
    poly2 only; no per-site or per-gender parameter enters it, and
    [group_mean], [group_var] are the mean and the variance of each row
    over the draws. *)
Theorem group_stats_follow_variant {E} (eng : Engine E)
    (h : HBR) (w : world E) (t : Trace)
    (age : list Q) (site_id gender : list Z) (slope2 slope intercept : list Q) :
  trace h = Some t →
  varvalues t !! "mu_prior_slope" = Some (np_array slope) →
  varvalues t !! "mu_prior_intercept" = Some (np_array intercept) →
  length slope = nchains t * 1000 →
  length intercept = nchains t * 1000 →
  let st := mkState (rebound h age site_id gender) w in
  let age' := predict_age (model_type h) age in
  (model_type h ∈ lin_variants →
     let temp := map (linear_trend slope intercept) age in
     group_stats eng age' 1000 st = (inr (map np_mean temp, map np_var temp), st))
  ∧ (model_type h = "poly2" →
     varvalues t !! "mu_prior_slope_2" = Some (np_array slope2) →
     length slope2 = nchains t * 1000 →
     let temp := map (quadratic_trend slope2 slope intercept) age in
     group_stats eng age' 1000 st = (inr (map np_mean temp, map np_var temp), st)).
Proof.
  intros Ht Hs Hi Hls Hli st age'.
  assert (Ht' : trace (self st) = Some t) by exact Ht.
  split.
  - intros Hmt temp.
    assert (Hage : age' = np_array age).
    { unfold age', predict_age. revert Hmt. unfold lin_variants.
      rewrite !elem_of_cons, elem_of_nil. by intros [->|[->|[->|[]]]]. }
    rewrite Hage. unfold group_stats, bind, attr_trace. rewrite Ht'.
    change (np_len (np_array age)) with (length age).
    rewrite (for_each_pure_ok _ (fun i => linear_trend slope intercept (nth i age 0%Q)))
      by (intros i _; by apply (group_row_lin eng st t)).
    unfold ret. by rewrite (map_nth_seq (linear_trend slope intercept)).
  - intros Hmt Hs2 Hls2 temp.
    assert (Hage : age' = np_array age) by (unfold age', predict_age; by rewrite Hmt).
    rewrite Hage. unfold group_stats, bind, attr_trace. rewrite Ht'.
    change (np_len (np_array age)) with (length age).
    rewrite (for_each_pure_ok _
               (fun i => quadratic_trend slope2 slope intercept (nth i age 0%Q)))
      by (intros i _; by apply (group_row_poly2 eng st t)).
    unfold ret. by rewrite (map_nth_seq (quadratic_trend slope2 slope intercept)).
Qed.

Lemma group_stats_follow_variant_ramp :
  ∃ temp,
    temp = map (linear_trend (ramp 2000) (ramp 2000)) [5; 7]%Q
    ∧ group_stats ramp_engine (np_array [5; 7]%Q) 1000
        (mkState (rebound (self (ramp_fitted "lin_rand_int")) [5; 7]%Q [0; 1]%Z [1; 0]%Z)
           world0)
      = (inr (map np_mean temp, map np_var temp),
         mkState (rebound (self (ramp_fitted "lin_rand_int")) [5; 7]%Q [0; 1]%Z [1; 0]%Z)
           world0)
    ∧ map np_mean temp = [Some 5997%Q; Some 7996%Q].
Proof.
  eexists. split; [reflexivity|]. split.
  - refine (proj1 (group_stats_follow_variant ramp_engine
                     (self (ramp_fitted "lin_rand_int")) world0
                     (ramp_trace (model (self (ramp_fitted "lin_rand_int"))) 1000 2)
                     [5; 7]%Q [0; 1]%Z [1; 0]%Z [] (ramp 2000) (ramp 2000)
                     _ _ _ _ _) _).
    + vm_compute; reflexivity.
    + vm_compute; reflexivity.
    + vm_compute; reflexivity.
    + vm_compute; reflexivity.
    + vm_compute; reflexivity.
    + vm_compute. do 0 right. apply list_elem_of_here.
  - vm_compute; reflexivity.
Defined.

(** C6 as worded fails on an object of the lin_rand_int variant fitted on
    the deterministic engine: the model has no second-order hyper-prior,
    the trend of a subject of age 5 is [5 * slope_mean + intercept_mean],
    and the quadratic formula of the claim has no value on that trace. *)
Lemma group_trend_lin_rand_int_not_quadratic :
  ∃ t row,
    trace (self (ramp_fitted "lin_rand_int")) = Some t
    ∧ find_rv "mu_prior_slope_2" (model (self (ramp_fitted "lin_rand_int"))) = None
    ∧ fst (group_row ramp_engine (np_array [5]%Q) (nchains t * 1000) 0
             (ramp_fitted "lin_rand_int")) = inr row
    ∧ row = linear_trend (ramp 2000) (ramp 2000) 5
    ∧ spec_group_trend t 5 ≠ Some row.
Proof.
  exists (ramp_trace (model (self (ramp_fitted "lin_rand_int"))) 1000 2),
         (linear_trend (ramp 2000) (ramp 2000) 5).
  split; [vm_compute; reflexivity|].
  split; [vm_compute; reflexivity|].
  split; [vm_compute; reflexivity|].
  split; [reflexivity|].
  assert (Hnone : spec_group_trend
                    (ramp_trace (model (self (ramp_fitted "lin_rand_int"))) 1000 2) 5
                  = None) by (vm_compute; reflexivity).
  rewrite Hnone. discriminate.
Qed.

(** ** Which buffers the likelihood reads *)

Lemma read_buffer_other va va' vs vg v :
  v ≠ SharedA → read_buffer va vs vg v = read_buffer va' vs vg v.
Proof. by destruct v. Qed.

(** An expression that does not mention the age buffer has the same value
    whatever the buffer holds, under every interpretation of the tensor
    operations. *)
Lemma eval_ignores_unread_age {T} (ops : TensorOps T) va va' vs vg point e :
  SharedA ∉ shared_vars e →
  eval ops va vs vg point e = eval ops va' vs vg point e.
Proof.
  induction e as [q|v|v|name|e IH ix slices|e1 IH1 e2 IH2|e1 IH1 e2 IH2
                  |e IH n|e IH|e1 IH1 e2 IH2]; simpl; intros Hnot;
    rewrite ?not_elem_of_app in Hnot; try done.
  - f_equal. apply read_buffer_other. intros ->. apply Hnot, list_elem_of_here.
  - destruct Hnot as [He Hix]. rewrite (IH He). f_equal.
    apply map_ext_in. intros v Hv. apply read_buffer_other. intros ->.
    by apply Hix, list_elem_of_In.
  - destruct Hnot as [H1 H2]. by rewrite (IH1 H1), (IH2 H2).
  - destruct Hnot as [H1 H2]. by rewrite (IH1 H1), (IH2 H2).
  - by rewrite (IH Hnot).
  - by rewrite (IH Hnot).
  - destruct Hnot as [H1 H2]. by rewrite (IH1 H1), (IH2 H2).
Qed.

(** In the four regression variants the mean of the likelihood reads the
    three buffers, the age buffer among them. *)
Lemma regression_mean_reads_age {E} (eng : Engine E) age site_id gender y tag w :
  tag ∈ ["lin_rand_int"; "lin_rand_int_slp"; "lin_rand_int_slp_nse"; "poly2"] →
  ∃ h w' mu,
    init eng age site_id gender y (Some tag) w = (inr h, w')
    ∧ likelihood_mean (model h) = Some mu
    ∧ (SharedA ∈ shared_vars mu) ∧ (SharedS ∈ shared_vars mu)
    ∧ (SharedG ∈ shared_vars mu).
Proof.
  rewrite !elem_of_cons, elem_of_nil.
  intros [->|[->|[->|[->|[]]]]];
    match goal with |- context [init ?e ?ag ?si ?ge ?yy ?tg ?ww] =>
      destruct (init e ag si ge yy tg ww) as [r w'] eqn:Hinit end;
    revert Hinit; run_init; intros [= <- <-];
    (eexists _, _, _; split; [reflexivity|]; split; [reflexivity|]);
    simpl; rewrite !elem_of_cons; split_and!; tauto.
Qed.

(** When a trace is attached, [predict] asks the posterior-predictive
    sampler once: on the stored graph, with the buffers holding the new
    covariates, the stored trace and [samples = 1000]. *)
Lemma predict_asks_posterior_predictive {E} (eng : Engine E)
    age site_id gender (st : state E) t :
  trace (self st) = Some t →
  ∃ rest,
    calls (outside (snd (predict eng age site_id gender st)))
    = calls (outside st)
      ++ CallSamplePPC (model (self st)) (predict_age (model_type (self st)) age)
           site_id gender t 1000 :: rest
    ∧ (rest = [] ∨ rest = [CallPrint "Done!"]).
Proof.
  intros Ht.
  pose proof (predict_cases eng age site_id gender st) as Hcases. simpl in Hcases.
  rewrite Ht in Hcases.
  repeat match type of Hcases with
         | match ?x with _ => _ end => destruct x
         end; rewrite Hcases; simpl; rewrite <- ?app_assoc; eauto.
Qed.

(** C4, at the 'nn' variant. The mean of the likelihood of an 'nn' model
    is built from the training ages captured as a constant: it does not
    mention the age buffer (the noise scale does read the site and gender
    buffers), [predict] leaves the graph as it is, and so the mean the
    posterior-predictive sampler works with has the same value whatever
    ages [predict] stores in the buffer. *)
Theorem nn_likelihood_mean_ignores_new_age {E} (eng : Engine E)
    (age : list Q) (site_id gender : list Z) (y : list Q) (w : world E) :
  ∃ h w' weights_in_1 weights_1_out mu,
    init eng age site_id gender y (Some "nn") w = (inr h, w')
    ∧ likelihood_mean (model h) = Some mu
    ∧ mu = BatchedDot
             (Tanh (BatchedDot (Const (np_expand_dims_1 (np_array age))) weights_in_1))
             weights_1_out
    ∧ (SharedA ∉ shared_vars mu)
    ∧ likelihood_sigma (model h) = Some (Index (Var "sigma_error") [SharedG; SharedS] 0)
    ∧ (∀ age2 site_id2 gender2 w2,
         model (self (snd (predict eng age2 site_id2 gender2 (mkState h w2))))
         = model h)
    ∧ (∀ T (ops : TensorOps T) point va va' vs vg,
         eval ops va vs vg point mu = eval ops va' vs vg point mu).
Proof.
  destruct (init eng age site_id gender y (Some "nn") w) as [r w'] eqn:Hinit.
  revert Hinit. run_init.
  destruct (randn eng [1; 2] (engine w)) as [init_1 e1]. simpl.
  destruct (randn eng [2] e1) as [init_out e2]. simpl.
  intros [= <- <-].
  eexists _, _, _, _, _. split; [reflexivity|]. split; [reflexivity|].
  split; [reflexivity|].
  assert (Hnot : SharedA ∉ shared_vars
            (BatchedDot
               (Tanh (BatchedDot (Const (np_expand_dims_1 (np_array age)))
                  (Add (Mul (Index (Var "w_in_1") [SharedG; SharedS] 2)
                          (Var "w_in_1_grp_sd")) (Var "w_in_1_grp"))))
               (Add (Mul (Index (Var "w_1_out") [SharedG; SharedS] 1)
                       (Var "w_1_out_grp_sd")) (Var "w_1_out_grp")))).
  { simpl. rewrite !not_elem_of_cons, elem_of_nil. split_and!; (discriminate || tauto). }
  split; [exact Hnot|]. split; [reflexivity|]. split.
  - intros. by rewrite predict_self.
  - intros. by apply eval_ignores_unread_age.
Qed.

(** * Further properties of the constructor and the methods *)

(** ** What construction leaves behind *)

Lemma insert_unique_length x l :
  1 ≤ length (insert_unique x l) ≤ S (length l).
Proof.
  induction l as [|z l IH]; simpl; [lia|].
  destruct (x <? z)%Z; simpl; [lia|].
  destruct (x =? z)%Z; simpl; lia.
Qed.

Lemma np_unique_length_bounds l :
  length (np_unique l) ≤ length l ∧ (length (np_unique l) = 0 ↔ l = []).
Proof.
  induction l as [|x l [IH _]]; simpl; [done|].
  pose proof (insert_unique_length x (np_unique l)). split; [lia|].
  split; [lia | discriminate].
Qed.

(** [init] returns an object only for an implemented tag, and then one
    whose fields are the arguments. *)
Lemma init_success {E} (eng : Engine E) age site_id gender y tag w h w' :
  init eng age site_id gender y tag w = (inr h, w') →
  default "lin" tag ∈ implemented_variants
  ∧ site_num h = length (np_unique site_id)
  ∧ gender_num h = length (np_unique gender)
  ∧ model_type h = default "lin" tag
  ∧ a h = predict_age (default "lin" tag) age
  ∧ s h = site_id ∧ g h = gender ∧ trace h = None.
Proof.
  intros Hinit.
  destruct (decide (default "lin" tag ∈ implemented_variants)) as [Hin|Hnot].
  - revert Hinit. unfold init, bind, ret.
    destruct (with_new_model _ w) as [[e|m] w1]; intros [= <- <-]. done.
  - exfalso. revert Hinit. unfold init, bind, with_new_model.
    match goal with |- context [build_graph eng ?tg ?ag ?S ?G y ?b] =>
      destruct (build_graph_unknown eng tg ag S G y b Hnot) as [Hr _];
      destruct (build_graph eng tg ag S G y b) as [r b'] end.
    simpl in Hr. subst r. discriminate.
Qed.

(** From [H : init ... = (inr h, w')], one goal per implemented tag, with
    [h] replaced by the object the constructor builds for it. *)
Ltac invert_init H :=
  let Hin := fresh "Hin" in
  pose proof (proj1 (init_success _ _ _ _ _ _ _ _ _ H)) as Hin;
  match type of H with
  | init _ _ _ _ _ ?tag _ = _ =>
      destruct tag as [tag|]; simpl in Hin;
      unfold implemented_variants in Hin;
      rewrite !elem_of_cons, elem_of_nil in Hin;
      [ destruct Hin as [->|[->|[->|[->|[->|[]]]]]]
      | exfalso; repeat (destruct Hin as [Hin|Hin]; [discriminate|]); done ]
  end;
  revert H; run_init;
  repeat match goal with
         | |- context [randn ?e [1; 2] ?x] => destruct (randn e [1; 2] x) as [? ?]; simpl
         | |- context [randn ?e [2] ?x] => destruct (randn e [2] x) as [? ?]; simpl
         end;
  intros [= <- <-].

(** X1. An object that the constructor returns has as [site_num] and
    [gender_num] the numbers of distinct ids, which are at most the number
    of subjects and are zero only for empty id arrays; the intercepts are
    declared with that many entries, whatever the ids are (they need not
    be the integers below [site_num]). *)
Theorem init_counts_distinct_ids {E} (eng : Engine E)
    (age : list Q) (site_id gender : list Z) (y : list Q) (tag : option string)
    (w w' : world E) (h : HBR) :
  init eng age site_id gender y tag w = (inr h, w') →
  site_num h = size (list_to_set site_id : gset Z)
  ∧ gender_num h = size (list_to_set gender : gset Z)
  ∧ site_num h ≤ length site_id ∧ gender_num h ≤ length gender
  ∧ (site_num h = 0 ↔ site_id = []) ∧ (gender_num h = 0 ↔ gender = [])
  ∧ rv_shape <$> find_rv "intercepts" (model h) = Some [site_num h].
Proof.
  intros Hinit.
  pose proof (init_success _ _ _ _ _ _ _ _ _ Hinit) as (_ & HS & HG & _).
  pose proof (np_unique_length_bounds site_id) as [HlS HzS].
  pose proof (np_unique_length_bounds gender) as [HlG HzG].
  rewrite <- !np_unique_length, HS, HG. split_and!; try done.
  clear HS HG. invert_init Hinit; reflexivity.
Qed.

Lemma init_counts_distinct_ids_ramp :
  site_num (self (ramp_built "poly2")) = 2
  ∧ site_num (self (ramp_built "poly2")) ≤ 3
  ∧ rv_shape <$> find_rv "intercepts" (model (self (ramp_built "poly2"))) = Some [2].
Proof.
  assert (Hinit : init ramp_engine [1; 2; 3]%Q [0; 1; 0]%Z [0; 0; 1]%Z [2; 4; 6]%Q
                    (Some "poly2") world0
                  = (inr (self (ramp_built "poly2")), outside (ramp_built "poly2")))
    by (vm_compute; reflexivity).
  destruct (init_counts_distinct_ids ramp_engine _ _ _ _ _ _ _ _ Hinit)
    as (HS & _ & Hle & _ & _ & _ & Hsh).
  split; [rewrite HS; vm_compute; reflexivity|].
  split; [exact Hle|].
  rewrite Hsh. vm_compute. reflexivity.
Defined.

(** X2. The graph of an object that the constructor returns is closed:
    every random variable is declared once, after the variables its prior
    mentions, and the likelihood mentions declared variables only. The
    only observed variable is 'y_like', a Normal whose data are the
    training outcomes; the buffers hold the training covariates and no
    trace is attached. *)
Theorem init_builds_closed_model {E} (eng : Engine E)
    (age : list Q) (site_id gender : list Z) (y : list Q) (tag : option string)
    (w w' : world E) (h : HBR) :
  init eng age site_id gender y tag w = (inr h, w') →
  closed_model (model h) = true
  ∧ (∃ mu sigma, observed_RVs (model h) = [Observed "y_like" (Normal mu sigma) y])
  ∧ data (a h) = age ∧ s h = site_id ∧ g h = gender ∧ trace h = None.
Proof.
  intros Hinit.
  pose proof (init_success _ _ _ _ _ _ _ _ _ Hinit) as (_ & _ & _ & _ & Ha & Hs & Hg & Ht).
  assert (Hdata : data (a h) = age).
  { rewrite Ha. unfold predict_age. by destruct (_ =? _)%string. }
  split_and!; try done; clear Ha Hs Hg Ht Hdata; invert_init Hinit;
    first [reflexivity | by eexists _, _].
Qed.

Lemma init_builds_closed_model_ramp :
  closed_model (model (self (ramp_built "nn"))) = true
  ∧ data (a (self (ramp_built "nn"))) = [1; 2; 3]%Q.
Proof.
  assert (Hinit : init ramp_engine [1; 2; 3]%Q [0; 1; 0]%Z [0; 0; 1]%Z [2; 4; 6]%Q
                    (Some "nn") world0
                  = (inr (self (ramp_built "nn")), outside (ramp_built "nn")))
    by (vm_compute; reflexivity).
  destruct (init_builds_closed_model ramp_engine _ _ _ _ _ _ _ _ Hinit)
    as (Hclosed & _ & Hdata & _).
  split; [exact Hclosed | exact Hdata].
Defined.

(** X3. Which buffers the likelihood of a constructed object reads. The
    mean reads the site and gender buffers in every variant, and the age
    buffer in every variant but 'nn'. The noise scale reads no buffer for
    lin_rand_int and lin_rand_int_slp (one scale for all subjects) and is
    indexed by the gender and site buffers in the other three. *)
Theorem likelihood_buffers_by_variant {E} (eng : Engine E)
    (age : list Q) (site_id gender : list Z) (y : list Q) (tag : option string)
    (w w' : world E) (h : HBR) :
  init eng age site_id gender y tag w = (inr h, w') →
  ∃ mu sigma,
    likelihood_mean (model h) = Some mu
    ∧ likelihood_sigma (model h) = Some sigma
    ∧ (SharedS ∈ shared_vars mu) ∧ (SharedG ∈ shared_vars mu)
    ∧ (SharedA ∈ shared_vars mu ↔ model_type h ≠ "nn")
    ∧ (model_type h ∈ ["lin_rand_int"; "lin_rand_int_slp"] →
         sigma = Var "sigma_error")
    ∧ (model_type h ∉ ["lin_rand_int"; "lin_rand_int_slp"] →
         sigma = Index (Var "sigma_error") [SharedG; SharedS] 0).
Proof.
  intros Hinit. invert_init Hinit;
    (eexists _, _; split; [reflexivity|]; split; [reflexivity|]);
    simpl; rewrite ?elem_of_cons, ?elem_of_nil;
    intuition (congruence || discriminate).
Qed.

Lemma likelihood_buffers_by_variant_ramp :
  ∃ mu sigma,
    likelihood_mean (model (self (ramp_built "lin_rand_int"))) = Some mu
    ∧ likelihood_sigma (model (self (ramp_built "lin_rand_int"))) = Some sigma
    ∧ (SharedS ∈ shared_vars mu) ∧ sigma = Var "sigma_error".
Proof.
  assert (Hinit : init ramp_engine [1; 2; 3]%Q [0; 1; 0]%Z [0; 0; 1]%Z [2; 4; 6]%Q
                    (Some "lin_rand_int") world0
                  = (inr (self (ramp_built "lin_rand_int")),
                     outside (ramp_built "lin_rand_int")))
    by (vm_compute; reflexivity).
  destruct (likelihood_buffers_by_variant ramp_engine _ _ _ _ _ _ _ _ Hinit)
    as (mu & sigma & Hmu & Hsigma & HS & _ & _ & Hscalar & _).
  exists mu, sigma. split_and!; try done.
  apply Hscalar. vm_compute. apply list_elem_of_here.
Defined.

(** X4. The constructor never samples. For the four regression variants
    and for every tag it rejects, it does not touch the outside at all;
    for 'nn' it draws two arrays from the random generator, of shapes
    (1, 2) and (2,), in that order, and nothing else. *)
Theorem init_only_draws_initial_weights {E} (eng : Engine E)
    (age : list Q) (site_id gender : list Z) (y : list Q) (tag : option string)
    (w : world E) :
  let w' := snd (init eng age site_id gender y tag w) in
  filter is_sampling (calls w') = filter is_sampling (calls w)
  ∧ (default "lin" tag ≠ "nn" → w' = w)
  ∧ (default "lin" tag = "nn" →
       calls w' = calls w ++ [CallRandn [1; 2]; CallRandn [2]]
       ∧ engine w' = snd (randn eng [2] (snd (randn eng [1; 2] (engine w))))).
Proof.
  simpl.
  destruct (init eng age site_id gender y tag w) as [[e|h] w'] eqn:Hinit; simpl.
  - (* rejected *)
    assert (Hw : w' = w ∧ default "lin" tag ≠ "nn").
    { destruct (decide (default "lin" tag ∈ implemented_variants)) as [Hin|Hnot].
      - exfalso. unfold implemented_variants in Hin.
        rewrite !elem_of_cons, elem_of_nil in Hin.
        destruct tag as [tag|]; simpl in Hin;
          [|repeat (destruct Hin as [Hin|Hin]; [discriminate|]); done].
        destruct Hin as [->|[->|[->|[->|[->|[]]]]]]; revert Hinit; run_init;
          repeat match goal with
                 | |- context [randn ?e [1; 2] ?x] =>
                     destruct (randn e [1; 2] x) as [? ?]; simpl
                 | |- context [randn ?e [2] ?x] =>
                     destruct (randn e [2] x) as [? ?]; simpl
                 end; discriminate.
      - split.
        + revert Hinit. unfold init, bind, with_new_model.
          match goal with |- context [build_graph eng ?tg ?ag ?S ?G y ?b] =>
            destruct (build_graph_unknown eng tg ag S G y b Hnot) as [Hr Hb];
            destruct (build_graph eng tg ag S G y b) as [r b'] end.
          simpl in Hr, Hb. subst r. intros [= _ <-]. done.
        + intros Hnn. apply Hnot. rewrite Hnn. unfold implemented_variants.
          do 4 apply list_elem_of_further. apply list_elem_of_here. }
    destruct Hw as [-> Hne]. split_and!; done.
  - invert_init Hinit; simpl;
      (split_and!; [ rewrite ?filter_app; simpl; by rewrite ?app_nil_r
                   | try done; intros; by destruct w
                   | try done ]).
    intros _. split; [by rewrite <- app_assoc | reflexivity].
Qed.

(** X5. The 'nn' variant declares, after the common priors, the group
    weights of shapes (1, 2) and (2,) with their standard deviations, the
    raw per-gender-and-site weights of shapes (G, S, 1, 2) and (G, S, 2),
    and the noise scale, in that order. The two group weights start from
    the two random draws, in the order drawn, and the standard deviations
    from ones; the mean combines them as raw * sd + group. *)
Theorem init_nn_declares_weights {E} (eng : Engine E)
    (age : list Q) (site_id gender : list Z) (y : list Q) (w w' : world E) (h : HBR) :
  init eng age site_id gender y (Some "nn") w = (inr h, w') →
  let G := gender_num h in
  let S := site_num h in
  let init_1 := fst (randn eng [1; 2] (engine w)) in
  let init_out := fst (randn eng [2] (snd (randn eng [1; 2] (engine w)))) in
  map (fun r => (rv_name r, rv_shape r, rv_testval r)) (drop 5 (free_RVs (model h)))
  = [("w_in_1_grp", [1; 2], Some init_1);
     ("w_in_1_grp_sd", [1; 2], Some (NdArray [1; 2] [1; 1]%Q));
     ("w_1_out_grp", [2], Some init_out);
     ("w_1_out_grp_sd", [2], Some (NdArray [2] [1; 1]%Q));
     ("w_in_1", [G; S; 1; 2], None);
     ("w_1_out", [G; S; 2], None);
     ("sigma_error", [G; S], None)]
  ∧ likelihood_mean (model h)
    = Some (BatchedDot
              (Tanh (BatchedDot (Const (np_expand_dims_1 (np_array age)))
                       (Add (Mul (Index (Var "w_in_1") [SharedG; SharedS] 2)
                               (Var "w_in_1_grp_sd"))
                            (Var "w_in_1_grp"))))
              (Add (Mul (Index (Var "w_1_out") [SharedG; SharedS] 1)
                      (Var "w_1_out_grp_sd"))
                   (Var "w_1_out_grp"))).
Proof.
  simpl. unfold init, with_new_model, build_graph, np_random_randn, declare, observe,
    bind, modify, ret, raise, log; simpl.
  destruct (randn eng [1; 2] (engine w)) as [init_1 e1]. simpl.
  destruct (randn eng [2] e1) as [init_out e2]. simpl.
  intros [= <- <-]. split; reflexivity.
Qed.

Lemma init_nn_declares_weights_ramp :
  ∃ mu, likelihood_mean (model (self (ramp_built "nn"))) = Some mu.
Proof.
  assert (Hinit : init ramp_engine [1; 2; 3]%Q [0; 1; 0]%Z [0; 0; 1]%Z [2; 4; 6]%Q
                    (Some "nn") world0
                  = (inr (self (ramp_built "nn")), outside (ramp_built "nn")))
    by (vm_compute; reflexivity).
  eexists.
  exact (proj2 (init_nn_declares_weights ramp_engine _ _ _ _ _ _ _ Hinit)).
Defined.

(** ** How the methods compose *)

(** Both ways through [estimate]. *)
Lemma estimate_cases {E} (eng : Engine E) (st : state E) :
  let h := self st in
  let w := outside st in
  let asked := CallSample (model h) (a h) (s h) (g h) 1000 1000 2 in
  match pm_sample eng (model h) (a h) (s h) (g h) 1000 1000 2 (engine w) with
  | (inr t, e') =>
      estimate eng st
      = (inr t, mkState (set_trace t h) (mkWorld e' (calls w ++ [asked])))
  | (inl err, e') =>
      estimate eng st = (inl err, mkState h (mkWorld e' (calls w ++ [asked])))
  end.
Proof.
  destruct st as [h w]. simpl.
  unfold estimate, bind, attr, sample, update, modify, attr_trace, log. simpl.
  by destruct (pm_sample eng (model h) (a h) (s h) (g h) 1000 1000 2 (engine w))
    as [[err|t] e'].
Qed.

(** X6. A second [estimate] asks the sampler again with the same graph,
    buffers and settings as the first. If it returns, its trace replaces
    the stored one; if it raises, the object keeps what the first call
    left. *)
Theorem estimate_again_refits {E} (eng : Engine E) (st : state E) :
  let h := self st in
  let asked := CallSample (model h) (a h) (s h) (g h) 1000 1000 2 in
  let st1 := snd (estimate eng st) in
  let st2 := snd (estimate eng st1) in
  calls (outside st2) = calls (outside st) ++ [asked; asked]
  ∧ match fst (estimate eng st1) with
    | inr t2 => trace (self st2) = Some t2
    | inl _ => self st2 = self st1
    end.
Proof.
  simpl.
  pose proof (estimate_cases eng st) as H1. simpl in H1.
  destruct (pm_sample eng (model (self st)) (a (self st)) (s (self st)) (g (self st))
              1000 1000 2 (engine (outside st))) as [[err|t] e1];
    rewrite H1; simpl;
    match goal with |- context [estimate eng ?st1] =>
      pose proof (estimate_cases eng st1) as H2; simpl in H2;
      destruct (pm_sample eng _ _ _ _ 1000 1000 2 e1) as [[err2|t2] e2];
      rewrite H2; simpl; by rewrite <- app_assoc
    end.
Qed.

(** X7. A [predict] that follows a successful [estimate] hands the
    posterior-predictive sampler the very trace [estimate] returned,
    together with the stored graph, the new covariates and 1000 samples. *)
Theorem predict_uses_estimated_trace {E} (eng : Engine E) (st : state E) (t : Trace)
    (age : list Q) (site_id gender : list Z) :
  fst (estimate eng st) = inr t →
  let h := self st in
  ∃ rest,
    calls (outside (snd (predict eng age site_id gender (snd (estimate eng st)))))
    = calls (outside st)
      ++ CallSample (model h) (a h) (s h) (g h) 1000 1000 2
      :: CallSamplePPC (model h) (predict_age (model_type h) age) site_id gender t 1000
      :: rest.
Proof.
  intros Hest. simpl.
  pose proof (estimate_cases eng st) as H1. simpl in H1.
  destruct (pm_sample eng (model (self st)) (a (self st)) (s (self st)) (g (self st))
              1000 1000 2 (engine (outside st))) as [[err|t1] e1];
    rewrite H1 in Hest |- *; simpl in Hest; [discriminate|].
  injection Hest as ->. simpl.
  match goal with |- context [predict eng age site_id gender ?st1] =>
    pose proof (predict_cases eng age site_id gender st1) as H2; simpl in H2 end.
  repeat match type of H2 with
         | match ?x with _ => _ end => destruct x
         end; rewrite H2; simpl; rewrite <- ?app_assoc; simpl; eauto.
Qed.

Lemma predict_uses_estimated_trace_ramp :
  ∃ rest,
    calls (outside (snd (predict ramp_engine [5; 7]%Q [0; 1]%Z [1; 0]%Z
                           (snd (estimate ramp_engine (ramp_built "lin_rand_int"))))))
    = CallSample (model (self (ramp_built "lin_rand_int")))
        (np_array [1; 2; 3]%Q) [0; 1; 0]%Z [0; 0; 1]%Z 1000 1000 2
      :: CallSamplePPC (model (self (ramp_built "lin_rand_int")))
           (np_array [5; 7]%Q) [0; 1]%Z [1; 0]%Z
           (ramp_trace (model (self (ramp_built "lin_rand_int"))) 1000 2) 1000
      :: rest.
Proof.
  assert (Hest : fst (estimate ramp_engine (ramp_built "lin_rand_int"))
                 = inr (ramp_trace (model (self (ramp_built "lin_rand_int"))) 1000 2))
    by reflexivity.
  exact (predict_uses_estimated_trace ramp_engine (ramp_built "lin_rand_int") _
           [5; 7]%Q [0; 1]%Z [1; 0]%Z Hest).
Defined.

(** X8. An [estimate] that follows a [predict] samples with the buffers
    as [predict] left them: the fit is run on the prediction covariates
    (against the training outcomes still attached to the graph), not on
    the training covariates. *)
Theorem estimate_after_predict_fits_new_covariates {E} (eng : Engine E) (st : state E)
    (age : list Q) (site_id gender : list Z) :
  let h := self st in
  last (calls (outside (snd (estimate eng (snd (predict eng age site_id gender st))))))
  = Some (CallSample (model h) (predict_age (model_type h) age) site_id gender
            1000 1000 2).
Proof.
  simpl.
  match goal with |- context [estimate eng ?st1] =>
    pose proof (estimate_cases eng st1) as H1; simpl in H1 end.
  rewrite predict_self in H1. simpl in H1.
  match type of H1 with
  | match ?x with _ => _ end => destruct x as [[err|t] e1]
  end; rewrite H1; simpl; by rewrite last_snoc.
Qed.

(** X9. What [predict] does to the outside. Without a trace it does
    nothing; with a trace it asks the posterior-predictive sampler exactly
    once; it never asks the MCMC sampler; and it prints 'Done!' exactly
    when it returns. *)
Theorem predict_effects {E} (eng : Engine E) (st : state E)
    (age : list Q) (site_id gender : list Z) :
  let h := self st in
  let r := predict eng age site_id gender st in
  ∃ new,
    calls (outside (snd r)) = calls (outside st) ++ new
    ∧ match trace h, fst r with
      | None, _ => new = []
      | Some t, inr _ =>
          new = [CallSamplePPC (model h) (predict_age (model_type h) age)
                   site_id gender t 1000;
                 CallPrint "Done!"]
      | Some t, inl _ =>
          new = [CallSamplePPC (model h) (predict_age (model_type h) age)
                   site_id gender t 1000]
      end.
Proof.
  simpl.
  pose proof (predict_cases eng age site_id gender st) as H. simpl in H.
  repeat match type of H with
         | match ?x with _ => _ end => destruct x
         end; rewrite H; simpl; rewrite <- ?app_assoc; simpl;
    eexists; (split; [|reflexivity]); by rewrite ?app_nil_r.
Qed.

(** ** Failures *)

(** X10. When the posterior-predictive sampler raises, [predict] raises
    the same exception: nothing is caught and nothing is printed. The
    buffers keep the new covariates (they are not restored) and the trace
    stays attached. *)
Theorem predict_propagates_sampler_error {E} (eng : Engine E) (st : state E)
    (t : Trace) (err : exn) (e' : E) (age : list Q) (site_id gender : list Z) :
  let h := self st in
  let age' := predict_age (model_type h) age in
  trace h = Some t →
  pm_sample_posterior_predictive eng (model h) age' site_id gender t 1000
    (engine (outside st)) = (inl err, e') →
  predict eng age site_id gender st
  = (inl err,
     mkState (rebound h age site_id gender)
       (mkWorld e' (calls (outside st)
                    ++ [CallSamplePPC (model h) age' site_id gender t 1000])))
  ∧ trace (rebound h age site_id gender) = Some t.
Proof.
  simpl. intros Ht Hcall.
  pose proof (predict_cases eng age site_id gender st) as H. simpl in H.
  rewrite Ht, Hcall in H. by rewrite H.
Qed.

Lemma predict_propagates_sampler_error_ramp :
  fst (predict failing_ppc_engine [5; 7]%Q [0; 1]%Z [1; 0]%Z (ramp_fitted "lin_rand_int"))
  = inl (EngineError "sampling failed").
Proof.
  assert (Ht : trace (self (ramp_fitted "lin_rand_int"))
               = Some (ramp_trace (model (self (ramp_built "lin_rand_int"))) 1000 2))
    by reflexivity.
  rewrite (proj1 (predict_propagates_sampler_error failing_ppc_engine
                    (ramp_fitted "lin_rand_int") _ (EngineError "sampling failed") tt
                    [5; 7]%Q [0; 1]%Z [1; 0]%Z Ht eq_refl)).
  reflexivity.
Defined.

(** The only exception the array arithmetic of the group trend raises is
    a [ValueError]. *)
Lemma np_binop_error f x y e :
  np_binop f x y = inl e → ∃ msg, e = ValueError msg.
Proof.
  unfold np_binop. destruct (broadcast_rev _ _); intros [= <-]. eauto.
Qed.

Lemma np_assign_row_error v m e :
  np_assign_row v m = inl e → ∃ msg, e = ValueError msg.
Proof.
  unfold np_assign_row.
  destruct (strip_ones (shape v)) as [|d [|d' sh]]; try (intros [= <-]; eauto).
  destruct (d =? m); [discriminate|]. destruct (d =? 1); intros [= <-]. eauto.
Qed.

Lemma np_assign_row_mismatch (l : list Q) m :
  length l ≠ m → length l ≠ 1 →
  np_assign_row (np_array l) m = inl (ValueError "could not broadcast input array").
Proof.
  intros Hm H1. unfold np_assign_row, np_array. cbn [shape data].
  rewrite strip_ones_vec.
  by rewrite (proj2 (Nat.eqb_neq _ _) Hm), (proj2 (Nat.eqb_neq _ _) H1).
Qed.

Lemma group_row_lin_mismatch {E} (eng : Engine E) (st : state E) t age ncols i
    slope intercept :
  model_type (self st) ∈ lin_variants →
  trace (self st) = Some t →
  varvalues t !! "mu_prior_slope" = Some (np_array slope) →
  varvalues t !! "mu_prior_intercept" = Some (np_array intercept) →
  length slope = length intercept →
  length slope ≠ ncols → length slope ≠ 1 →
  fst (group_row eng (np_array age) ncols i st)
  = inl (ValueError "could not broadcast input array").
Proof.
  intros Hmt Ht Hs Hi Hlen Hn H1.
  unfold group_row, bind, attr.
  rewrite (lin_variants_test _ Hmt).
  rewrite (trace_item_ok st t _ _ Ht Hs), (trace_item_ok st t _ _ Ht Hi).
  unfold lift, np_add. rewrite np_scale_array.
  rewrite np_binop_vec by (rewrite length_map; congruence).
  rewrite np_assign_row_mismatch; [done| |];
    rewrite length_zip_with, length_map, <- Hlen, Nat.min_id; done.
Qed.

(** X11. The group trend ties [predict] to the number of draws of
    [estimate]: on an object of a lin_ variant whose trace holds [n] draws
    of the two hyper-priors with [n] different from [nchains * 1000] (and
    from 1), a call with at least one subject cannot return, because the
    row of the trend does not fit the row of [nchains * 1000] zeros it is
    assigned to. *)
Theorem predict_needs_matching_draws {E} (eng : Engine E) (st : state E) (t : Trace)
    (age : list Q) (site_id gender : list Z) (slope intercept : list Q) :
  model_type (self st) ∈ lin_variants →
  trace (self st) = Some t →
  varvalues t !! "mu_prior_slope" = Some (np_array slope) →
  varvalues t !! "mu_prior_intercept" = Some (np_array intercept) →
  length slope = length intercept →
  length slope ≠ nchains t * 1000 →
  length slope ≠ 1 →
  age ≠ [] →
  (∃ err, fst (predict eng age site_id gender st) = inl err)
  ∧ (∀ w, fst (group_stats eng (np_array age) 1000
                 (mkState (rebound (self st) age site_id gender) w))
          = inl (ValueError "could not broadcast input array")).
Proof.
  intros Hmt Ht Hs Hi Hlen Hn H1 Hage.
  assert (Hgroup : ∀ w, fst (group_stats eng (np_array age) 1000
                               (mkState (rebound (self st) age site_id gender) w))
                        = inl (ValueError "could not broadcast input array")).
  { intros w. set (st2 := mkState (rebound (self st) age site_id gender) w).
    assert (Ht2 : trace (self st2) = Some t) by exact Ht.
    assert (Hmt2 : model_type (self st2) ∈ lin_variants) by exact Hmt.
    unfold group_stats, bind, attr_trace. rewrite Ht2.
    change (np_len (np_array age)) with (length age).
    destruct age as [|x age]; [done|].
    change (seq 0 (length (x :: age))) with (0 :: seq 1 (length age)).
    cbn [for_each]. unfold bind.
    pose proof (group_row_lin_mismatch eng st2 t (x :: age) (nchains t * 1000) 0
                  slope intercept Hmt2 Ht2 Hs Hi Hlen Hn H1) as Hrow.
    destruct (group_row eng (np_array (x :: age)) (nchains t * 1000) 0 st2)
      as [r st3]. simpl in Hrow. by subst r. }
  split; [|exact Hgroup].
  assert (Hage' : predict_age (model_type (self st)) age = np_array age).
  { unfold predict_age. revert Hmt. unfold lin_variants.
    rewrite !elem_of_cons, elem_of_nil. by intros [->|[->|[->|[]]]]. }
  pose proof (predict_cases eng age site_id gender st) as H. cbv zeta in H.
  rewrite Ht, Hage' in H.
  repeat match type of H with
         | match fst (group_stats _ _ _ _) with _ => _ end => rewrite Hgroup in H
         | match ?x with _ => _ end => destruct x
         end; rewrite H; simpl; eauto.
Qed.

Lemma predict_needs_matching_draws_ramp :
  ∃ err, fst (predict ramp_engine [5; 7]%Q [0; 1]%Z [1; 0]%Z ramp_short_trace) = inl err.
Proof.
  refine (proj1 (predict_needs_matching_draws ramp_engine ramp_short_trace
                   (ramp_trace (model (self (ramp_built "lin_rand_int"))) 500 2)
                   [5; 7]%Q [0; 1]%Z [1; 0]%Z (ramp 1000) (ramp 1000)
                   _ _ _ _ _ _ _ _)).
  - vm_compute. apply list_elem_of_here.
  - reflexivity.
  - vm_compute; reflexivity.
  - vm_compute; reflexivity.
  - reflexivity.
  - vm_compute. discriminate.
  - vm_compute. discriminate.
  - discriminate.
Defined.

Lemma for_each_length {St A B} (f : A → M St B) l st rs st' :
  for_each f l st = (inr rs, st') → length rs = length l.
Proof.
  revert st rs st'. induction l as [|x l IH]; simpl; intros st rs st'.
  - by intros [= <- _].
  - unfold bind at 1. destruct (f x st) as [[e|y] st1]; [discriminate|].
    unfold bind at 1. destruct (for_each f l st1) as [[e|ys] st2] eqn:Hrest;
      [discriminate|].
    intros [= <- _]. simpl. f_equal. exact (IH _ _ _ Hrest).
Qed.

(** X12. When the group statistics are computed, [group_mean] and
    [group_var] hold one entry per subject, whatever the variant. *)
Theorem group_stats_one_entry_per_subject {E} (eng : Engine E) (st st' : state E)
    (mt : string) (age : list Q) (group_mean group_var : list (option Q)) :
  group_stats eng (predict_age mt age) 1000 st = (inr (group_mean, group_var), st') →
  length group_mean = length age ∧ length group_var = length age.
Proof.
  unfold group_stats, bind, attr_trace.
  destruct (trace (self st)) as [t|]; [|discriminate].
  destruct (for_each _ _ st) as [[e|temp] st1] eqn:Hloop; [discriminate|].
  intros [= <- <- _]. apply for_each_length in Hloop.
  by rewrite !length_map, Hloop, length_seq, np_len_predict_age.
Qed.

Lemma group_stats_one_entry_per_subject_ramp :
  length (fst (returned
                 (fst (group_stats ramp_engine (predict_age "lin_rand_int" [5; 7]%Q) 1000
                         (ramp_fitted "lin_rand_int")))
                 ([], []))) = 2.
Proof.
  set (r := group_stats ramp_engine (predict_age "lin_rand_int" [5; 7]%Q) 1000
              (ramp_fitted "lin_rand_int")).
  set (res := returned (fst r) ([], [])).
  assert (Hr : r = (inr (fst res, snd res), snd r)) by (vm_compute; reflexivity).
  exact (proj1 (group_stats_one_entry_per_subject ramp_engine _ _ _ _ _ _ Hr)).
Defined.

(** ** The names [predict] reads are the names the constructor declares *)

Lemma covers_find t m name r :
  trace_covers t m → find_rv name m = Some r → is_Some (varvalues t !! name).
Proof.
  intros Hcov Hfind. unfold find_rv in Hfind.
  apply find_some in Hfind as [Hin Hname].
  apply String.eqb_eq in Hname as <-. apply Hcov. by apply list_elem_of_In.
Qed.

Lemma group_row_lin_no_key_error {E} (eng : Engine E) (st : state E) t age ncols i :
  model_type (self st) ∈ lin_variants →
  trace (self st) = Some t →
  is_Some (varvalues t !! "mu_prior_slope") →
  is_Some (varvalues t !! "mu_prior_intercept") →
  ∀ k, fst (group_row eng age ncols i st) ≠ inl (KeyError k).
Proof.
  intros Hmt Ht [slope Hs] [intercept Hi] k.
  unfold group_row, bind, attr.
  rewrite (lin_variants_test _ Hmt).
  rewrite (trace_item_ok st t _ _ Ht Hs), (trace_item_ok st t _ _ Ht Hi).
  unfold lift, np_add.
  destruct (np_binop _ _ _) as [e|v] eqn:Hb; simpl;
    [apply np_binop_error in Hb as [msg ->]; discriminate|].
  destruct (np_assign_row _ _) as [e|row] eqn:Ha; simpl;
    [apply np_assign_row_error in Ha as [msg ->]; discriminate | discriminate].
Qed.

Lemma group_row_poly2_no_key_error {E} (eng : Engine E) (st : state E) t age ncols i :
  model_type (self st) = "poly2" →
  trace (self st) = Some t →
  is_Some (varvalues t !! "mu_prior_slope_2") →
  is_Some (varvalues t !! "mu_prior_slope") →
  is_Some (varvalues t !! "mu_prior_intercept") →
  ∀ k, fst (group_row eng age ncols i st) ≠ inl (KeyError k).
Proof.
  intros Hmt Ht [slope2 Hs2] [slope Hs] [intercept Hi] k.
  unfold group_row, bind, attr. rewrite Hmt. cbn [String.eqb Ascii.eqb Bool.eqb orb].
  rewrite (trace_item_ok st t _ _ Ht Hs2), (trace_item_ok st t _ _ Ht Hs).
  unfold lift, np_add.
  destruct (np_binop _ _ _) as [e|v] eqn:Hb; simpl;
    [apply np_binop_error in Hb as [msg ->]; discriminate|].
  rewrite (trace_item_ok st t _ _ Ht Hi).
  destruct (np_binop _ v _) as [e|v'] eqn:Hb'; simpl;
    [apply np_binop_error in Hb' as [msg ->]; discriminate|].
  destruct (np_assign_row _ _) as [e|row] eqn:Ha; simpl;
    [apply np_assign_row_error in Ha as [msg ->]; discriminate | discriminate].
Qed.

(** X13. The group trend of [predict] reads from the trace only
    variables that the constructor declares for the object's variant: on
    a trace that holds draws for every free variable of the graph, no
    lookup of the trend can miss. For the regression variants the trend
    therefore never raises a [KeyError]; for 'nn' the two group weights it
    asks for are there. *)
Theorem group_trend_reads_declared_variables {E} (eng : Engine E)
    (age : list Q) (site_id gender : list Z) (y : list Q) (tag : option string)
    (w w' : world E) (h : HBR) (t : Trace) (st : state E)
    (age2 : ndarray Q) (ncols i : nat) :
  init eng age site_id gender y tag w = (inr h, w') →
  trace_covers t (model h) →
  model_type (self st) = model_type h →
  trace (self st) = Some t →
  (model_type h ≠ "nn" →
     ∀ k, fst (group_row eng age2 ncols i st) ≠ inl (KeyError k))
  ∧ (model_type h = "nn" →
     is_Some (varvalues t !! "w_in_1_grp") ∧ is_Some (varvalues t !! "w_1_out_grp")).
Proof.
  intros Hinit Hcov Hmt Ht.
  invert_init Hinit; simpl in Hmt; (split; [intros Hne | intros Hnn; try discriminate]).
  - apply (group_row_lin_no_key_error eng st t); try done.
    + rewrite Hmt. apply list_elem_of_here.
    + eapply (covers_find t _ "mu_prior_slope"); [exact Hcov | reflexivity].
    + eapply (covers_find t _ "mu_prior_intercept"); [exact Hcov | reflexivity].
  - apply (group_row_lin_no_key_error eng st t); try done.
    + rewrite Hmt. apply list_elem_of_further, list_elem_of_here.
    + eapply (covers_find t _ "mu_prior_slope"); [exact Hcov | reflexivity].
    + eapply (covers_find t _ "mu_prior_intercept"); [exact Hcov | reflexivity].
  - apply (group_row_lin_no_key_error eng st t); try done.
    + rewrite Hmt. do 2 apply list_elem_of_further. apply list_elem_of_here.
    + eapply (covers_find t _ "mu_prior_slope"); [exact Hcov | reflexivity].
    + eapply (covers_find t _ "mu_prior_intercept"); [exact Hcov | reflexivity].
  - apply (group_row_poly2_no_key_error eng st t); try done.
    + eapply (covers_find t _ "mu_prior_slope_2"); [exact Hcov | reflexivity].
    + eapply (covers_find t _ "mu_prior_slope"); [exact Hcov | reflexivity].
    + eapply (covers_find t _ "mu_prior_intercept"); [exact Hcov | reflexivity].
  - done.
  - split.
    + eapply (covers_find t _ "w_in_1_grp"); [exact Hcov | reflexivity].
    + eapply (covers_find t _ "w_1_out_grp"); [exact Hcov | reflexivity].
Qed.

Lemma ramp_trace_covers m draws chains : trace_covers (ramp_trace m draws chains) m.
Proof.
  intros r Hr. unfold ramp_trace. cbn [varvalues].
  destruct (list_to_map _ !! rv_name r) as [v|] eqn:Hlook; [done|].
  exfalso. apply not_elem_of_list_to_map in Hlook. apply Hlook.
  rewrite <- list_fmap_compose. apply list_elem_of_fmap. by exists r.
Qed.

Lemma group_trend_reads_declared_variables_ramp :
  is_Some (varvalues (ramp_trace (model (self (ramp_built "nn"))) 1000 2) !! "w_in_1_grp")
  ∧ is_Some (varvalues (ramp_trace (model (self (ramp_built "nn"))) 1000 2)
               !! "w_1_out_grp").
Proof.
  assert (Hinit : init ramp_engine [1; 2; 3]%Q [0; 1; 0]%Z [0; 0; 1]%Z [2; 4; 6]%Q
                    (Some "nn") world0
                  = (inr (self (ramp_built "nn")), outside (ramp_built "nn")))
    by (vm_compute; reflexivity).
  assert (Hnn : model_type (self (ramp_built "nn")) = "nn") by (vm_compute; reflexivity).
  exact (proj2 (group_trend_reads_declared_variables ramp_engine _ _ _ _ _ _ _ _
                  (ramp_trace (model (self (ramp_built "nn"))) 1000 2)
                  (mkState (set_trace (ramp_trace (model (self (ramp_built "nn"))) 1000 2)
                              (self (ramp_built "nn")))
                     world0)
                  (np_array [5]%Q) 2000 0
                  Hinit (ramp_trace_covers _ _ _) eq_refl eq_refl) Hnn).
Defined.

(** ** Shapes and failed fits *)



(** X15. A fit that fails on an object without a trace leaves it without
    one: a [predict] that follows raises for the missing attribute, and
    the posterior-predictive sampler is not reached. *)
Theorem predict_after_failed_estimate_raises {E} (eng : Engine E) (st : state E)
    (err : exn) (age : list Q) (site_id gender : list Z) :
  trace (self st) = None →
  fst (estimate eng st) = inl err →
  let st1 := snd (estimate eng st) in
  fst (predict eng age site_id gender st1) = inl (AttributeError "trace")
  ∧ outside (snd (predict eng age site_id gender st1)) = outside st1.
Proof.
  intros Hnone Hest. simpl.
  pose proof (estimate_cases eng st) as H1. simpl in H1.
  destruct (pm_sample eng (model (self st)) (a (self st)) (s (self st)) (g (self st))
              1000 1000 2 (engine (outside st))) as [[err1|t1] e1];
    rewrite H1 in Hest |- *; simpl in Hest; [|discriminate].
  cbn [snd].
  match goal with |- context [predict eng age site_id gender ?st1] =>
    pose proof (predict_cases eng age site_id gender st1) as H2; cbv zeta in H2;
    cbn [self outside] in H2 end.
  rewrite Hnone in H2. by rewrite H2.
Qed.

Lemma predict_after_failed_estimate_raises_ramp :
  fst (predict failing_sample_engine [5; 7]%Q [0; 1]%Z [1; 0]%Z
         (snd (estimate failing_sample_engine (ramp_built "poly2"))))
  = inl (AttributeError "trace").
Proof.
  exact (proj1 (predict_after_failed_estimate_raises failing_sample_engine
                  (ramp_built "poly2") (EngineError "sampling failed")
                  [5; 7]%Q [0; 1]%Z [1; 0]%Z eq_refl eq_refl)).
Defined.
